(** * Speaker diarization bridge: aggregation and fingerprint comparison

    A shallow embedding of [src-tauri/python/diarization_inference.py]
    (class [SpeakerDiarization]): the loop of [diarize_audio] that turns the
    tracks of the diarization pipeline into segments, per-speaker embeddings
    and statistics, the helper [_extract_speaker_embedding], and the cosine
    score of [compare_speakers].

    Numbers.  The Python code computes on binary64 floats.  The functions are
    written over an interface [Number] of the arithmetic they use, so that
    what depends on no property of the arithmetic is stated for any; the
    instance the program runs on is Rocq's primitive binary64 floats
    (rounding, infinities and NaN included), and every statement about
    values is made there.

    External collaborators.  The pyannote pipeline, [torchaudio.load] and the
    embedding model are parameters: the pipeline's output is the list of
    tracks [diarize_audio] iterates over; the other two are fields of [Env].
    The iteration order of a Python [set] of strings depends on the hash seed
    of the process; it is the parameter [SetOrder]. *)

From Stdlib Require Import String ZArith Bool Lia Floats List Permutation.
Import ListNotations.

Set Implicit Arguments.

(** ** Python outcomes *)

(** The exceptions the modelled code can meet. *)
Inductive exn : Type :=
| ValueError      (* np.dot on misaligned shapes, int(nan) *)
| OverflowError   (* int(inf) *)
| RuntimeError.   (* a failure raised by torchaudio or by the embedding model *)

(** A call either returns a value or raises. *)
Inductive py (A : Type) : Type :=
| Return (a : A)
| Raise (e : exn).

Arguments Return {A} a.
Arguments Raise {A} e.

Definition bind {A B : Type} (m : py A) (k : A -> py B) : py B :=
  match m with
  | Return a => k a
  | Raise e => Raise e
  end.

Notation "x <- m ;; k" := (bind m (fun x => k))
  (at level 61, m at next level, right associativity).

(** ** The arithmetic the code uses *)

Class Number (F : Type) : Type := {
  fzero : F;
  fone : F;
  ftwo : F;
  fadd : F -> F -> F;
  fsub : F -> F -> F;
  fmul : F -> F -> F;
  fdiv : F -> F -> F;
  fsqrt : F -> F;
  (* the conversion of a Python int met in mixed arithmetic *)
  of_int : Z -> F;
  (* int(x): truncation toward zero; raises on an infinity or a NaN *)
  to_int : F -> py Z
}.

(** *** binary64 *)

Definition float_of_int (z : Z) : float :=
  SF2Prim (binary_normalize prec emax z 0 false).

Definition float_to_int (x : float) : py Z :=
  match Prim2SF x with
  | S754_zero _ => Return 0%Z
  | S754_finite s m e =>
      let mag := if (0 <=? e)%Z then (Z.pos m * 2 ^ e)%Z
                 else (Z.pos m / 2 ^ (- e))%Z in
      Return (if s then (- mag)%Z else mag)
  | S754_infinity _ => Raise OverflowError
  | S754_nan => Raise ValueError
  end.

#[export] Instance float_Number : Number float := {
  fzero := 0%float;
  fone := 1%float;
  ftwo := 2%float;
  fadd := PrimFloat.add;
  fsub := PrimFloat.sub;
  fmul := PrimFloat.mul;
  fdiv := PrimFloat.div;
  fsqrt := PrimFloat.sqrt;
  of_int := float_of_int;
  to_int := float_to_int
}.

(** ** Python containers *)

(** [sum(xs)]: accumulation from 0, left to right.  (From CPython 3.12 on,
    a sum of floats also carries a compensation term for the rounding error,
    see [py_sum_compensated]; whenever no addition rounds, the result is the
    same.) *)
Definition py_sum {F} `{Number F} (xs : list F) : F :=
  fold_left fadd xs fzero.

(** [sum(xs)] over floats as CPython 3.12 and later compute it: the first
    item is added to the int 0, the others by Neumaier's compensated
    summation, the compensation being added at the end unless it is zero or
    not finite. *)
Fixpoint neumaier (xs : list float) (f_result c : float) : float :=
  match xs with
  | [] =>
      if negb (c =? 0)%float && PrimFloat.is_finite c
      then (f_result + c)%float else f_result
  | x :: rest =>
      let t := (f_result + x)%float in
      let c' := if (abs x <=? abs f_result)%float
                then (c + ((f_result - t) + x))%float
                else (c + ((x - t) + f_result))%float in
      neumaier rest t c'
  end.

Definition py_sum_compensated (xs : list float) : float :=
  match xs with
  | [] => 0%float
  | x :: rest => neumaier rest (0 + x)%float 0%float
  end.

(** A [dict] with string keys, as the list of its items in insertion order. *)
Definition dict (V : Type) : Type := list (string * V).

Definition keys {V} (d : dict V) : list string := map fst d.

(** [k in d] *)
Fixpoint dict_mem {V} (k : string) (d : dict V) : bool :=
  match d with
  | [] => false
  | (k', _) :: d' => if String.eqb k k' then true else dict_mem k d'
  end.

(** [d.get(k, default)] *)
Fixpoint dict_get {V} (k : string) (d : dict V) (default : V) : V :=
  match d with
  | [] => default
  | (k', v) :: d' => if String.eqb k k' then v else dict_get k d' default
  end.

(** [d[k]], with [None] for a [KeyError]. *)
Fixpoint dict_lookup {V} (k : string) (d : dict V) : option V :=
  match d with
  | [] => None
  | (k', v) :: d' => if String.eqb k k' then Some v else dict_lookup k d'
  end.

(** [d[k] = v]: an existing key keeps its place, a new one goes last. *)
Fixpoint dict_set {V} (k : string) (v : V) (d : dict V) : dict V :=
  match d with
  | [] => [(k, v)]
  | (k', v') :: d' =>
      if String.eqb k k' then (k', v) :: d' else (k', v') :: dict_set k v d'
  end.

(** [xs[a:b]] for ints [a], [b] of either sign. *)
Definition slice_index (n i : Z) : Z :=
  if (i <? 0)%Z then Z.max (i + n) 0 else Z.min i n.

Definition py_slice {A} (xs : list A) (a b : Z) : list A :=
  let n := Z.of_nat (length xs) in
  let lo := slice_index n a in
  let hi := slice_index n b in
  firstn (Z.to_nat (hi - lo)) (skipn (Z.to_nat lo) xs).

(** The order in which iterating a [set] of strings built from a list yields
    its elements.  CPython guarantees each element once and nothing else; the
    order follows the hashes, which change from process to process. *)
Record SetOrder : Type := {
  set_to_list : list string -> list string;
  set_to_list_NoDup : forall l, NoDup (set_to_list l);
  set_to_list_In : forall l x, In x (set_to_list l) <-> In x l
}.

(** ** compare_speakers (lines 165-188) *)

Section Comparator.
Context {F : Type} `{Number F}.

(** [np.dot] of two 1-D arrays of one length: the sum of the products, taken
    here in index order.  (The order in which numpy's backend adds up the
    products is its own; what is proved of binary64 below uses of the products
    only that each is the same in both orders of the arguments.) *)
Definition dot_aligned (a b : list F) : F :=
  fold_left (fun acc xy => fadd acc (fmul (fst xy) (snd xy))) (combine a b) fzero.

(** A misaligned pair raises [ValueError]. *)
Definition np_dot (a b : list F) : py F :=
  if Nat.eqb (length a) (length b) then Return (dot_aligned a b)
  else Raise ValueError.

(** [np.linalg.norm] of a 1-D array: [sqrt(x.dot(x))]. *)
Definition np_linalg_norm (x : list F) : F := fsqrt (dot_aligned x x).

Definition compare_speakers (embedding1 embedding2 : list F) : py F :=
  dot_product <- np_dot embedding1 embedding2 ;;
  let norm1 := np_linalg_norm embedding1 in
  let norm2 := np_linalg_norm embedding2 in
  let similarity := fdiv dot_product (fmul norm1 norm2) in
  Return (fdiv (fadd similarity fone) ftwo).
End Comparator.

(** ** The aggregation of diarize_audio (lines 51-121) *)

Section Aggregator.
Context {F : Type} `{Number F}.

(** A track yielded by [diarization.itertracks(yield_label=True)]: the turn
    (a pyannote [Segment] with [start] and [end]) and the speaker label; the
    track name in between is ignored by the loop. *)
Record Track : Type := {
  turn_start : F;
  turn_end : F;
  label : string
}.

(** The dict appended to [segments]. *)
Record Segment : Type := {
  speaker_id : string;
  start : F;
  end_ : F;
  duration : F
}.

(** The value stored in [speaker_stats]. *)
Record SpeakerStats : Type := {
  total_duration : F;
  num_segments : nat;
  embedding : list F
}.

(** The dict [diarize_audio] returns. *)
Record DiarizeResult : Type := {
  segments : list Segment;
  speakers : list string;
  num_speakers : nat;
  speaker_stats : dict SpeakerStats
}.

(** A waveform tensor: one list of samples per channel. *)
Definition waveform : Type := list (list F).

(** What the method reads of the outside world for one audio file. *)
Record Env : Type := {
  torchaudio_load : py (waveform * Z);
  embedding_model : waveform -> py (list F)
}.

Variable env : Env.
Variable order : SetOrder.

(** [waveform[:, a:b]] *)
Definition slice_columns (w : waveform) (a b : Z) : waveform :=
  map (fun channel => py_slice channel a b) w.

(** Pointwise sum of the channels, then division by their number:
    [torch.mean(segment, dim=0, keepdim=True)]. *)
Fixpoint add_rows (xs ys : list F) : list F :=
  match xs, ys with
  | x :: xs', y :: ys' => fadd x y :: add_rows xs' ys'
  | _, _ => []
  end.

Definition torch_mean_dim0 (w : waveform) : waveform :=
  match w with
  | [] => []
  | row :: rows =>
      let total := fold_left add_rows rows row in
      [map (fun x => fdiv x (of_int (Z.of_nat (length w)))) total]
  end.

(** The body of the [try] of [_extract_speaker_embedding] (lines 141-159). *)
Definition extract_body (start_time end_time : F) : py (list F) :=
  loaded <- torchaudio_load env ;;
  let '(wave, sample_rate) := loaded in
  start_sample <- to_int (fmul start_time (of_int sample_rate)) ;;
  end_sample <- to_int (fmul end_time (of_int sample_rate)) ;;
  let segment := slice_columns wave start_sample end_sample in
  let segment := if Nat.ltb 1 (length segment) then torch_mean_dim0 segment
                 else segment in
  embedding_model env segment.

(** [_extract_speaker_embedding] (lines 123-163): any exception of the body
    is caught and turned into [None]. *)
Definition _extract_speaker_embedding (start_time end_time : F)
  : option (list F) :=
  match extract_body start_time end_time with
  | Return e => Some e
  | Raise _ => None
  end.

(** The state of the [for] loop of lines 84-100.  [extraction_calls] is not
    a variable of the program: it records, in order, the calls the loop makes
    to [_extract_speaker_embedding]. *)
Record LoopState : Type := {
  st_segments : list Segment;
  st_speaker_embeddings : dict (list F);
  extraction_calls : list Track
}.

Definition initial_state : LoopState :=
  {| st_segments := []; st_speaker_embeddings := []; extraction_calls := [] |}.

Definition segment_of (t : Track) : Segment :=
  {| speaker_id := label t;
     start := turn_start t;
     end_ := turn_end t;
     duration := fsub (turn_end t) (turn_start t) |}.

(** One iteration (lines 85-100). *)
Definition loop_body (st : LoopState) (t : Track) : LoopState :=
  let segs := st_segments st ++ [segment_of t] in
  if dict_mem (label t) (st_speaker_embeddings st) then
    {| st_segments := segs;
       st_speaker_embeddings := st_speaker_embeddings st;
       extraction_calls := extraction_calls st |}
  else
    {| st_segments := segs;
       st_speaker_embeddings :=
         match _extract_speaker_embedding (turn_start t) (turn_end t) with
         | Some e => dict_set (label t) e (st_speaker_embeddings st)
         | None => st_speaker_embeddings st
         end;
       extraction_calls := extraction_calls st ++ [t] |}.

Definition run_loop (tracks : list Track) : LoopState :=
  fold_left loop_body tracks initial_state.

(** The statistics of one speaker (lines 107-114). *)
Definition stats_of (segs : list Segment) (speaker_embeddings : dict (list F))
  (speaker : string) : SpeakerStats :=
  let speaker_segments :=
    filter (fun s => String.eqb (speaker_id s) speaker) segs in
  let total_time := py_sum (map duration speaker_segments) in
  {| total_duration := total_time;
     num_segments := length speaker_segments;
     embedding := dict_get speaker speaker_embeddings [] |}.

(** The second loop (lines 104-114). *)
Definition build_stats (segs : list Segment) (speaker_embeddings : dict (list F))
  (unique_speakers : list string) : dict SpeakerStats :=
  fold_left
    (fun speaker_stats speaker =>
       dict_set speaker (stats_of segs speaker_embeddings speaker) speaker_stats)
    unique_speakers [].

Definition diarize_audio (tracks : list Track) : py DiarizeResult :=
  let st := run_loop tracks in
  let segs := st_segments st in
  let unique_speakers := set_to_list order (map speaker_id segs) in
  let stats := build_stats segs (st_speaker_embeddings st) unique_speakers in
  Return {| segments := segs;
            speakers := unique_speakers;
            num_speakers := length unique_speakers;
            speaker_stats := stats |}.

End Aggregator.

(** ** Reference notions the statements are phrased with *)

(** The distinct elements of a list in the order of their first occurrence. *)
Fixpoint first_seen (l : list string) : list string :=
  match l with
  | [] => []
  | x :: l' => x :: filter (fun y => negb (String.eqb x y)) (first_seen l')
  end.

Section Reference.
Context {F : Type} `{Number F}.

(** The turns of one speaker, in input order. *)
Definition turns_of (s : string) (tracks : list (Track (F:=F))) : list Track :=
  filter (fun t => String.eqb (label t) s) tracks.

(** The span of a turn. *)
Definition span (t : Track (F:=F)) : F := fsub (turn_end t) (turn_start t).

(** The embedding of the first turn of [s] on which extraction succeeds. *)
Fixpoint first_embedding (env : Env) (s : string) (tracks : list Track)
  : option (list F) :=
  match tracks with
  | [] => None
  | t :: rest =>
      if String.eqb (label t) s then
        match _extract_speaker_embedding env (turn_start t) (turn_end t) with
        | Some e => Some e
        | None => first_embedding env s rest
        end
      else first_embedding env s rest
  end.

Definition is_some {A} (o : option A) : bool :=
  match o with Some _ => true | None => false end.

End Reference.

(** ** Two possible set orders *)

Lemma first_seen_In (l : list string) (x : string) :
  In x (first_seen l) <-> In x l.
Proof.
  induction l as [|y l IH]; simpl; [tauto|].
  rewrite filter_In, IH, negb_true_iff, String.eqb_neq.
  destruct (string_dec y x) as [->|Hne]; tauto.
Qed.

Lemma first_seen_NoDup (l : list string) : NoDup (first_seen l).
Proof.
  induction l as [|y l IH]; simpl; constructor.
  - rewrite filter_In, negb_true_iff, String.eqb_neq. tauto.
  - now apply NoDup_filter.
Qed.

(** Iteration in first-seen order. *)
Definition first_seen_order : SetOrder :=
  {| set_to_list := first_seen;
     set_to_list_NoDup := first_seen_NoDup;
     set_to_list_In := first_seen_In |}.

Lemma rev_first_seen_NoDup (l : list string) : NoDup (rev (first_seen l)).
Proof. apply NoDup_rev, first_seen_NoDup. Qed.

Lemma rev_first_seen_In (l : list string) (x : string) :
  In x (rev (first_seen l)) <-> In x l.
Proof. rewrite <- in_rev. apply first_seen_In. Qed.

(** Iteration in the opposite order, as another hash seed may give. *)
Definition last_seen_order : SetOrder :=
  {| set_to_list := fun l => rev (first_seen l);
     set_to_list_NoDup := rev_first_seen_NoDup;
     set_to_list_In := rev_first_seen_In |}.

(** ** Concrete inputs (binary64) *)

Section Inputs.
Open Scope string_scope.
Open Scope float_scope.

Definition track (s : string) (a b : float) : Track :=
  {| turn_start := a; turn_end := b; label := s |}.

(** The turn stream of the specification's scenario. *)
Definition scenario_tracks : list Track :=
  [track "A" 0 2; track "B" 2 5; track "A" 5 6].

(** A turn that ends before it starts. *)
Definition reversed_turn : Track := track "A" 10 4.

(** Structural invalidity as the specification words it:
    [end <= start] or [start < 0]. *)
Definition invalid_turn (t : Track) : bool :=
  (turn_end t <=? turn_start t) || (turn_start t <? 0).

(** A recording of two samples at 1 Hz and a model that rejects a segment
    starting on a silent sample. *)
Definition picky_env : Env :=
  {| torchaudio_load := Return ([[0; 0.5]], 1%Z);
     embedding_model := fun w =>
       match w with
       | [x :: _] => if x =? 0 then Raise RuntimeError else Return [x]
       | _ => Raise RuntimeError
       end |}.

Definition retry_tracks : list Track := [track "A" 0 1; track "A" 1 2].

(** Six seconds of a mono recording at 1000 Hz and a model that accepts any
    non-empty segment, answering with its number of samples. *)
Definition short_env : Env :=
  {| torchaudio_load := Return ([repeat 0.5 (Z.to_nat 6000)], 1000%Z);
     embedding_model := fun w =>
       match w with
       | [(_ :: _) as channel] =>
           Return [float_of_int (Z.of_nat (List.length channel))]
       | _ => Raise RuntimeError
       end |}.

(** The turn [("A", 5, 5.05)]: 0.05 s, 50 samples at 1000 Hz. *)
Definition short_turn : Track := track "A" 5 (505 / 100).

(** The minimum usable window of the specification, in seconds. *)
Definition min_window : float := 1 / 10.

Definition degenerate (t : Track) : bool := span t <? min_window.

(** Two speakers, the second one in alphabetical order first. *)
Definition two_speakers : list Track := [track "B" 0 1; track "A" 1 2].

End Inputs.

(** ** Reference notions for the comparator *)

(** A vector whose entries all compare equal to zero. *)
Definition all_zero (a : list float) : bool := forallb PrimFloat.is_zero a.

(** A float that is a zero of either sign or a NaN. *)
Definition zero_or_nan (x : float) : bool :=
  match Prim2SF x with
  | S754_zero _ | S754_nan => true
  | _ => false
  end.

(** ** Further reference notions *)

Section MoreReference.
Context {F : Type} `{Number F}.

(** Whether extraction succeeds on a turn. *)
Definition succeeded (env : Env) (t : Track (F:=F)) : bool :=
  is_some (_extract_speaker_embedding env (turn_start t) (turn_end t)).

(** The turns of a list up to and including the first one on which
    extraction succeeds. *)
Fixpoint until_success (env : Env) (l : list (Track (F:=F))) : list Track :=
  match l with
  | [] => []
  | t :: rest => if succeeded env t then [t] else t :: until_success env rest
  end.

(** The segment counts of all records, added up. *)
Definition counted_segments (stats : dict (SpeakerStats (F:=F))) : nat :=
  list_sum (map (fun kv => num_segments (snd kv)) stats).

End MoreReference.

(** The exact value of a finite float, in units of [2^-1074] (every finite
    binary64 number is a whole number of them); 0 for an infinity or a NaN. *)
Definition exact_units (x : float) : Z :=
  match Prim2SF x with
  | S754_finite s m e => ((if s then Z.neg m else Z.pos m) * 2 ^ (e + 1074))%Z
  | _ => 0%Z
  end.

(** The exact sum of [end - start] over a list of turns, in the same units. *)
Definition exact_span_sum (tracks : list (Track (F:=float))) : Z :=
  fold_right Z.add 0%Z
    (map (fun t => (exact_units (turn_end t) - exact_units (turn_start t))%Z)
         tracks).

(** Two turns of one speaker: 40000000 s and 3e-9 s, both from 0. *)
Definition long_tracks : list (Track (F:=float)) :=
  [track "A" 0%float 40000000%float;
   track "A" 0%float (3 / 1000000000)%float].

(** A stereo recording of four samples at 1 Hz and a model that answers
    with the channel it is given. *)
Definition stereo_env : Env (F:=float) :=
  {| torchaudio_load := Return ([[1; 2; 3; 4]; [5; 6; 7; 8]]%float, 1%Z);
     embedding_model := fun w =>
       match w with
       | [channel] => Return channel
       | _ => Raise RuntimeError
       end |}.

(** A recording that cannot be read. *)
Definition unreadable_env : Env (F:=float) :=
  {| torchaudio_load := Raise RuntimeError;
     embedding_model := fun _ => Return [1%float] |}.


(** A float that is an infinity or a NaN, read on its IEEE decoding. *)
Definition nonfinite_sf (f : spec_float) : bool :=
  match f with
  | S754_infinity _ | S754_nan => true
  | _ => false
  end.

(** ** Dictionaries *)

Section DictFacts.
Context {V : Type}.
Implicit Types (d : dict V) (k : string) (v : V).

Lemma dict_mem_In k d : dict_mem k d = true <-> In k (keys d).
Proof.
  induction d as [|[k' v'] d IH]; simpl.
  - split; [discriminate | tauto].
  - destruct (String.eqb_spec k k') as [->|Hne].
    + split; auto.
    + rewrite IH. split; [auto | intros [Heq|Hin]; [congruence | assumption]].
Qed.

Lemma dict_mem_lookup k d : dict_mem k d = is_some (dict_lookup k d).
Proof.
  induction d as [|[k' v'] d IH]; simpl; [reflexivity|].
  now destruct (String.eqb k k').
Qed.

Lemma dict_get_lookup k d v :
  dict_get k d v = match dict_lookup k d with Some x => x | None => v end.
Proof.
  induction d as [|[k' v'] d IH]; simpl; [reflexivity|].
  now destruct (String.eqb k k').
Qed.

Lemma keys_dict_set_new k v d :
  ~ In k (keys d) -> keys (dict_set k v d) = keys d ++ [k].
Proof.
  induction d as [|[k' v'] d IH]; simpl; intros Hnin; [reflexivity|].
  destruct (String.eqb_spec k k') as [->|Hne]; [tauto|].
  simpl. f_equal. apply IH. tauto.
Qed.

Lemma dict_lookup_set_same k v d : dict_lookup k (dict_set k v d) = Some v.
Proof.
  induction d as [|[k' v'] d IH]; simpl.
  - now rewrite String.eqb_refl.
  - destruct (String.eqb_spec k k') as [->|Hne]; simpl.
    + now rewrite String.eqb_refl.
    + destruct (String.eqb_spec k k'); [congruence | exact IH].
Qed.

Lemma dict_lookup_set_other k k0 v d :
  k0 <> k -> dict_lookup k0 (dict_set k v d) = dict_lookup k0 d.
Proof.
  intros Hne. induction d as [|[k' v'] d IH]; simpl.
  - destruct (String.eqb_spec k0 k); [congruence | reflexivity].
  - destruct (String.eqb_spec k k') as [->|Hne']; simpl.
    + destruct (String.eqb_spec k0 k'); [congruence | reflexivity].
    + now rewrite IH.
Qed.

(** Filling a dict by one assignment per element of a list. *)
Lemma keys_fold_dict_set f l : forall d,
  NoDup l -> (forall k, In k l -> ~ In k (keys d)) ->
  keys (fold_left (fun acc k => dict_set k (f k) acc) l d) = keys d ++ l.
Proof.
  induction l as [|k l IH]; intros d Hnd Hfresh; simpl.
  - now rewrite app_nil_r.
  - inversion Hnd as [|? ? Hk Hl]; subst.
    rewrite IH; trivial.
    + rewrite keys_dict_set_new by (apply Hfresh; now left).
      now rewrite <- app_assoc.
    + intros k0 Hk0. rewrite keys_dict_set_new by (apply Hfresh; now left).
      rewrite in_app_iff. simpl. intros [Hin|[->|[]]]; [|tauto].
      revert Hin. apply Hfresh. now right.
Qed.

Lemma dict_lookup_fold_dict_set f l k : forall d,
  In k l ->
  dict_lookup k (fold_left (fun acc k => dict_set k (f k) acc) l d)
  = Some (f k).
Proof.
  assert (Hout : forall l d, ~ In k l ->
            dict_lookup k (fold_left (fun acc k => dict_set k (f k) acc) l d)
            = dict_lookup k d).
  { clear l. induction l as [|x l IH]; intros d Hnin; simpl; [reflexivity|].
    rewrite IH by (simpl in Hnin; tauto).
    apply dict_lookup_set_other. simpl in Hnin. intros ->. tauto. }
  induction l as [|x l IH]; intros d Hin; simpl; [destruct Hin|].
  destruct (in_dec string_dec k l) as [Hl|Hl].
  - now apply IH.
  - destruct Hin as [->|Hin]; [|tauto].
    rewrite Hout by assumption.
    apply dict_lookup_set_same.
Qed.

End DictFacts.

(** ** The first loop *)

Section LoopFacts.
Context {F : Type} `{Number F}.
Variable env : Env (F:=F).
Implicit Types (t : Track (F:=F)) (tracks pre : list (Track (F:=F))).

Lemma run_loop_snoc pre t :
  run_loop env (pre ++ [t]) = loop_body env (run_loop env pre) t.
Proof. unfold run_loop. now rewrite fold_left_app. Qed.

Lemma st_segments_loop_body st t :
  st_segments (loop_body env st t) = st_segments st ++ [segment_of t].
Proof. unfold loop_body. now destruct (dict_mem _ _). Qed.

Lemma st_segments_run_loop tracks :
  st_segments (run_loop env tracks) = map segment_of tracks.
Proof.
  induction tracks as [|t pre IH] using rev_ind; [reflexivity|].
  now rewrite run_loop_snoc, st_segments_loop_body, IH, map_app.
Qed.

Lemma speaker_id_segments tracks :
  map speaker_id (map segment_of tracks) = map label tracks.
Proof. rewrite map_map. now apply map_ext. Qed.

Lemma filter_segment_of s tracks :
  filter (fun x => String.eqb (speaker_id x) s) (map segment_of tracks)
  = map segment_of (turns_of s tracks).
Proof.
  unfold turns_of. induction tracks as [|t tracks IH]; simpl; [reflexivity|].
  destruct (String.eqb (label t) s); simpl; now rewrite IH.
Qed.

Lemma first_embedding_snoc s pre t :
  first_embedding env s (pre ++ [t]) =
  match first_embedding env s pre with
  | Some e => Some e
  | None => first_embedding env s [t]
  end.
Proof.
  induction pre as [|u pre IH]; simpl.
  - now destruct (first_embedding env s []).
  - destruct (String.eqb (label u) s); [|exact IH].
    now destruct (_extract_speaker_embedding env (turn_start u) (turn_end u)).
Qed.

(** What [speaker_embeddings] holds after any prefix of the loop. *)
Lemma speaker_embeddings_run_loop s tracks :
  dict_lookup s (st_speaker_embeddings (run_loop env tracks))
  = first_embedding env s tracks.
Proof.
  induction tracks as [|t pre IH] using rev_ind; [reflexivity|].
  rewrite run_loop_snoc, first_embedding_snoc, <- IH.
  unfold loop_body. rewrite dict_mem_lookup.
  destruct (dict_lookup (label t) (st_speaker_embeddings (run_loop env pre)))
    as [e0|] eqn:Hmem; simpl.
  - destruct (String.eqb_spec (label t) s) as [Heq|Hne].
    + subst s. now rewrite Hmem.
    + now destruct (dict_lookup s _).
  - destruct (String.eqb_spec (label t) s) as [Heq|Hne].
    + subst s. rewrite Hmem.
      destruct (_extract_speaker_embedding env (turn_start t) (turn_end t)).
      * apply dict_lookup_set_same.
      * exact Hmem.
    + destruct (_extract_speaker_embedding env (turn_start t) (turn_end t)).
      * rewrite dict_lookup_set_other by congruence.
        now destruct (dict_lookup s _).
      * now destruct (dict_lookup s _).
Qed.

(** The calls a further turn adds. *)
Lemma extraction_calls_snoc pre t :
  extraction_calls (run_loop env (pre ++ [t])) =
  extraction_calls (run_loop env pre)
  ++ (if is_some (first_embedding env (label t) pre) then [] else [t]).
Proof.
  rewrite run_loop_snoc, <- speaker_embeddings_run_loop, <- dict_mem_lookup.
  unfold loop_body. destruct (dict_mem _ _); simpl; [now rewrite app_nil_r|].
  reflexivity.
Qed.

Variable order : SetOrder.

Lemma diarize_audio_eq tracks :
  diarize_audio env order tracks =
  Return {| segments := map segment_of tracks;
            speakers := set_to_list order (map label tracks);
            num_speakers := length (set_to_list order (map label tracks));
            speaker_stats :=
              build_stats (map segment_of tracks)
                (st_speaker_embeddings (run_loop env tracks))
                (set_to_list order (map label tracks)) |}.
Proof.
  unfold diarize_audio.
  now rewrite st_segments_run_loop, speaker_id_segments.
Qed.

Lemma keys_build_stats segs emb l :
  NoDup l -> keys (build_stats segs emb l) = l.
Proof.
  intros Hnd. unfold build_stats.
  rewrite (keys_fold_dict_set (stats_of segs emb)); auto.
Qed.

Lemma dict_lookup_build_stats segs emb l s :
  In s l -> dict_lookup s (build_stats segs emb l) = Some (stats_of segs emb s).
Proof. intros Hin. unfold build_stats. now apply dict_lookup_fold_dict_set. Qed.

End LoopFacts.

(** ** The aggregated result *)

Section ResultFacts.
Context {F : Type} `{Number F}.
Variable env : Env (F:=F).
Variable order : SetOrder.
Implicit Types (t : Track (F:=F)) (tracks pre post : list (Track (F:=F))).

(** The record of a speaker of the input, field by field. *)
Lemma speaker_record tracks s :
  In s (map label tracks) ->
  exists r,
    diarize_audio env order tracks = Return r /\
    dict_lookup s (speaker_stats r) =
    Some {| total_duration := py_sum (map span (turns_of s tracks));
            num_segments := length (turns_of s tracks);
            embedding := match first_embedding env s tracks with
                         | Some e => e
                         | None => []
                         end |}.
Proof.
  intros Hin. eexists. split; [apply diarize_audio_eq|]. simpl.
  rewrite dict_lookup_build_stats by now apply set_to_list_In.
  unfold stats_of.
  rewrite filter_segment_of, dict_get_lookup, speaker_embeddings_run_loop.
  rewrite length_map, map_map. reflexivity.
Qed.

Lemma first_embedding_absent s tracks :
  ~ In s (map label tracks) -> first_embedding env s tracks = None.
Proof.
  induction tracks as [|t tracks IH]; simpl; intros Hnin; [reflexivity|].
  destruct (String.eqb_spec (label t) s); [tauto|]. apply IH. tauto.
Qed.

Lemma turns_of_absent s tracks :
  ~ In s (map label tracks) -> turns_of s tracks = [].
Proof.
  unfold turns_of.
  induction tracks as [|t tracks IH]; simpl; intros Hnin; [reflexivity|].
  destruct (String.eqb_spec (label t) s); [tauto|]. apply IH. tauto.
Qed.

Lemma first_embedding_only_turn pre post t :
  ~ In (label t) (map label pre) ->
  ~ In (label t) (map label post) ->
  first_embedding env (label t) (pre ++ t :: post)
  = _extract_speaker_embedding env (turn_start t) (turn_end t).
Proof.
  intros Hpre Hpost. induction pre as [|u pre IH]; simpl.
  - rewrite String.eqb_refl.
    destruct (_extract_speaker_embedding env (turn_start t) (turn_end t));
      [reflexivity | now apply first_embedding_absent].
  - simpl in Hpre. destruct (String.eqb_spec (label u) (label t)).
    + exfalso. apply Hpre. left. assumption.
    + apply IH. tauto.
Qed.

Lemma extraction_calls_app pre post :
  exists more,
    extraction_calls (run_loop env (pre ++ post))
    = extraction_calls (run_loop env pre) ++ more.
Proof.
  induction post as [|t post IH] using rev_ind.
  - exists []. now rewrite !app_nil_r.
  - destruct IH as [more IH]. rewrite app_assoc, extraction_calls_snoc, IH.
    eexists. now rewrite <- app_assoc.
Qed.

End ResultFacts.

(** ** binary64 facts *)

Lemma float_mul_comm (x y : float) : (x * y = y * x)%float.
Proof.
  rewrite <- (SF2Prim_Prim2SF (x * y)), <- (SF2Prim_Prim2SF (y * x)).
  rewrite !mul_spec. f_equal.
  destruct (Prim2SF x) as [sx|sx| |sx mx ex], (Prim2SF y) as [sy|sy| |sy my ey];
    simpl; try reflexivity; try (now rewrite xorb_comm).
  now rewrite xorb_comm, Pos.mul_comm, Z.add_comm.
Qed.

Lemma is_zero_zero_or_nan (x : float) :
  PrimFloat.is_zero x = true -> zero_or_nan x = true.
Proof.
  unfold PrimFloat.is_zero, zero_or_nan. rewrite eqb_spec.
  destruct (Prim2SF x) as [s|s| |s m e]; try reflexivity;
    destruct s; discriminate.
Qed.

Lemma zero_or_nan_mul (x y : float) :
  zero_or_nan x = true -> zero_or_nan (x * y) = true.
Proof.
  unfold zero_or_nan. rewrite mul_spec.
  destruct (Prim2SF x) as [sx|sx| |sx mx ex]; try discriminate;
    destruct (Prim2SF y) as [sy|sy| |sy my ey]; reflexivity.
Qed.

Lemma zero_or_nan_add (x y : float) :
  zero_or_nan x = true -> zero_or_nan y = true -> zero_or_nan (x + y) = true.
Proof.
  unfold zero_or_nan. rewrite add_spec.
  destruct (Prim2SF x) as [sx|sx| |sx mx ex]; try discriminate;
    destruct (Prim2SF y) as [sy|sy| |sy my ey]; try discriminate;
    try reflexivity.
  now destruct sx, sy.
Qed.

Lemma zero_or_nan_sqrt (x : float) :
  zero_or_nan x = true -> zero_or_nan (PrimFloat.sqrt x) = true.
Proof.
  unfold zero_or_nan. rewrite sqrt_spec.
  now destruct (Prim2SF x) as [sx|sx| |sx mx ex].
Qed.

Lemma float_is_nan (x : float) : Prim2SF x = S754_nan -> x = nan.
Proof. intros Hx. now rewrite <- (SF2Prim_Prim2SF x), Hx. Qed.

Lemma zero_or_nan_div (x y : float) :
  zero_or_nan x = true -> zero_or_nan y = true -> (x / y = nan)%float.
Proof.
  unfold zero_or_nan. intros Hx Hy. apply float_is_nan. rewrite div_spec.
  destruct (Prim2SF x) as [sx|sx| |sx mx ex]; try discriminate;
    destruct (Prim2SF y) as [sy|sy| |sy my ey]; try discriminate;
    reflexivity.
Qed.

Lemma nan_add (y : float) : (nan + y = nan)%float.
Proof.
  apply float_is_nan. rewrite add_spec.
  replace (Prim2SF nan) with S754_nan by reflexivity. reflexivity.
Qed.

Lemma nan_div (y : float) : (nan / y = nan)%float.
Proof.
  apply float_is_nan. rewrite div_spec.
  replace (Prim2SF nan) with S754_nan by reflexivity. reflexivity.
Qed.

(** ** The comparator *)

Section ComparatorFacts.
Context {F : Type} `{Number F}.

Lemma np_dot_aligned (a b : list F) :
  length a = length b -> np_dot a b = Return (dot_aligned a b).
Proof. intros Hl. unfold np_dot. now rewrite Hl, Nat.eqb_refl. Qed.

Lemma np_dot_misaligned (a b : list F) :
  length a <> length b -> np_dot a b = Raise ValueError.
Proof.
  intros Hl. unfold np_dot.
  now destruct (Nat.eqb_spec (length a) (length b)).
Qed.

Lemma compare_speakers_aligned (a b : list F) :
  length a = length b ->
  compare_speakers a b =
  Return (fdiv (fadd (fdiv (dot_aligned a b)
                        (fmul (np_linalg_norm a) (np_linalg_norm b)))
                  fone) ftwo).
Proof. intros Hl. unfold compare_speakers. now rewrite np_dot_aligned. Qed.

Lemma compare_speakers_misaligned (a b : list F) :
  length a <> length b -> compare_speakers a b = Raise ValueError.
Proof. intros Hl. unfold compare_speakers. now rewrite np_dot_misaligned. Qed.

(** Symmetry needs nothing of the arithmetic but a commutative product. *)
Hypothesis fmul_comm : forall x y : F, fmul x y = fmul y x.

Lemma dot_aligned_comm (a b : list F) : dot_aligned a b = dot_aligned b a.
Proof.
  unfold dot_aligned. generalize (fzero (F:=F)) as acc. revert b.
  induction a as [|x a IH]; intros [|y b] acc; simpl; trivial.
  rewrite fmul_comm. apply IH.
Qed.

Lemma compare_speakers_comm (a b : list F) :
  compare_speakers a b = compare_speakers b a.
Proof.
  destruct (Nat.eq_dec (length a) (length b)) as [Hl|Hl].
  - rewrite !compare_speakers_aligned by congruence.
    now rewrite dot_aligned_comm, (fmul_comm (np_linalg_norm a)).
  - rewrite !compare_speakers_misaligned by congruence. reflexivity.
Qed.

End ComparatorFacts.

Lemma zero_or_nan_dot (a b : list float) :
  Forall (fun x => zero_or_nan x = true) a ->
  zero_or_nan (dot_aligned a b) = true.
Proof.
  unfold dot_aligned. intros Ha.
  assert (Hacc : zero_or_nan (fzero (F:=float)) = true) by reflexivity.
  revert Hacc. generalize (fzero (F:=float)) as acc. revert b.
  induction Ha as [|x a Hx Ha IH]; intros [|y b] acc Hacc; simpl; trivial.
  apply IH. apply zero_or_nan_add; [assumption|]. now apply zero_or_nan_mul.
Qed.

Lemma compare_zero_vector (a b : list float) :
  length a = length b -> all_zero a = true ->
  compare_speakers a b = Return nan.
Proof.
  intros Hl Hz. rewrite compare_speakers_aligned by assumption. f_equal.
  assert (Ha : Forall (fun x => zero_or_nan x = true) a).
  { apply Forall_forall. intros x Hx. apply is_zero_zero_or_nan.
    unfold all_zero in Hz. rewrite forallb_forall in Hz. now apply Hz. }
  simpl. rewrite (@zero_or_nan_div (dot_aligned a b)).
  - now rewrite nan_add, nan_div.
  - now apply zero_or_nan_dot.
  - apply zero_or_nan_mul. unfold np_linalg_norm. simpl.
    apply zero_or_nan_sqrt. now apply zero_or_nan_dot.
Qed.

(** ** Claims on diarize_audio *)

(** C1.  Whatever the input, [diarize_audio] returns, and in its result the
    keys of [speaker_stats], the [speakers] list and the [speaker_id] values
    of [segments] are the same set (each key and each speaker once), however
    the turns of a speaker are spread over the input. *)
Theorem C1_speaker_sets_agree :
  forall (F : Type) (N : Number F) (env : Env (F:=F)) (order : SetOrder)
         (tracks : list Track),
  exists r,
    diarize_audio env order tracks = Return r /\
    (forall s, In s (keys (speaker_stats r)) <-> In s (speakers r)) /\
    (forall s, In s (speakers r) <-> In s (map speaker_id (segments r))) /\
    NoDup (keys (speaker_stats r)) /\
    NoDup (speakers r).
Proof.
  intros F N env order tracks.
  eexists. split; [apply diarize_audio_eq|]. simpl.
  rewrite keys_build_stats by apply set_to_list_NoDup.
  rewrite speaker_id_segments.
  repeat split; try tauto; try apply set_to_list_In; apply set_to_list_NoDup.
Qed.

(** C2, the claim as stated fails: speaker A has two turns, of 40000000 s
    and of 3e-9 s; the total reported is 40000000.0, whichever way [sum]
    accumulates, and it differs from the exact sum of [end - start] by
    more than 1e-9. *)
Lemma C2_counterexample :
  exists r st,
    diarize_audio short_env first_seen_order long_tracks = Return r /\
    dict_lookup "A" (speaker_stats r) = Some st /\
    num_segments st = 2 /\
    total_duration st = 40000000%float /\
    py_sum_compensated (map span long_tracks) = 40000000%float /\
    (2 ^ 1074
     < 10 ^ 9 * Z.abs (exact_units (total_duration st)
                       - exact_span_sum long_tracks))%Z.
Proof. eexists _, _. repeat split. Qed.

(** C2, amended.  For every speaker [s] of the input, the record of [s] has
    [num_segments] equal to the number of turns of [s], and [total_duration]
    equal to what [sum] computes, in the arithmetic of the program and in
    input order, from the values [end - start] of those turns.  In
    binary64, on
    [("A",0,2),("B",2,5),("A",5,6)], speaker A gets 3.0 over 2 segments and
    speaker B 3.0 over 1 segment, whichever way [sum] accumulates. *)
Theorem C2_count_and_duration :
  (forall (F : Type) (N : Number F) (env : Env (F:=F)) (order : SetOrder)
          (tracks : list Track) (s : string),
     In s (map label tracks) ->
     exists r st,
       diarize_audio env order tracks = Return r /\
       dict_lookup s (speaker_stats r) = Some st /\
       num_segments st = length (turns_of s tracks) /\
       total_duration st = py_sum (map span (turns_of s tracks))) /\
  (forall (env : Env (F:=float)) (order : SetOrder),
     exists r a b,
       diarize_audio env order scenario_tracks = Return r /\
       dict_lookup "A" (speaker_stats r) = Some a /\
       total_duration a = 3%float /\ num_segments a = 2 /\
       dict_lookup "B" (speaker_stats r) = Some b /\
       total_duration b = 3%float /\ num_segments b = 1) /\
  (py_sum_compensated (map span (turns_of "A" scenario_tracks)) = 3%float /\
   py_sum_compensated (map span (turns_of "B" scenario_tracks)) = 3%float).
Proof.
  split; [|split; [|split; reflexivity]].
  - intros F N env order tracks s Hin.
    destruct (speaker_record env order tracks s Hin) as [r [Hr Hs]].
    eexists r, _. repeat split; [exact Hr | exact Hs | |]; reflexivity.
  - intros env order.
    destruct (speaker_record env order scenario_tracks "A") as [r [Hr Ha]];
      [simpl; tauto|].
    destruct (speaker_record env order scenario_tracks "B") as [r' [Hr' Hb]];
      [simpl; tauto|].
    rewrite Hr in Hr'. injection Hr' as <-.
    eexists r, _, _.
    repeat split; [exact Hr | exact Ha | | | exact Hb | |]; reflexivity.
Qed.

Lemma C2_count_and_duration_witness :
  In "B"%string (map label scenario_tracks) /\
  exists r st,
    diarize_audio short_env first_seen_order scenario_tracks = Return r /\
    dict_lookup "B" (speaker_stats r) = Some st /\
    num_segments st = length (turns_of "B" scenario_tracks) /\
    total_duration st = py_sum (map span (turns_of "B" scenario_tracks)).
Proof.
  split; [simpl; tauto|].
  apply (proj1 C2_count_and_duration). simpl; tauto.
Defined.

(** C3, the claim as stated fails: the turn with start = 10 and end = 4 is
    structurally invalid, yet the call returns a result. *)
Lemma C3_counterexample :
  existsb invalid_turn [reversed_turn] = true /\
  exists r, diarize_audio short_env first_seen_order [reversed_turn] = Return r.
Proof. split; [reflexivity | eexists; reflexivity]. Qed.

(** C3, amended.  [diarize_audio] checks no turn and never fails on account
    of one: for every turn sequence it returns a result whose segments are
    the turns with [duration = end - start]; the turn with start = 10 and
    end = 4 becomes a segment of duration -6, which is also the speaker's
    [total_duration]. *)
Theorem C3_no_turn_validation :
  (forall (F : Type) (N : Number F) (env : Env (F:=F)) (order : SetOrder)
          (tracks : list Track),
     exists r,
       diarize_audio env order tracks = Return r /\
       segments r = map segment_of tracks) /\
  (forall (env : Env (F:=float)) (order : SetOrder),
     exists r st,
       diarize_audio env order [reversed_turn] = Return r /\
       segments r = [ {| speaker_id := "A"; start := 10%float;
                         end_ := 4%float; duration := (-6)%float |} ] /\
       dict_lookup "A" (speaker_stats r) = Some st /\
       total_duration st = (-6)%float /\ num_segments st = 1).
Proof.
  split.
  - intros. eexists. split; [apply diarize_audio_eq | reflexivity].
  - intros env order.
    destruct (speaker_record env order [reversed_turn] "A") as [r [Hr Ha]];
      [simpl; tauto|].
    eexists r, _. repeat split; [exact Hr | | exact Ha | |]; try reflexivity.
    rewrite diarize_audio_eq in Hr. injection Hr as <-. reflexivity.
Qed.

(** C4, the claim as stated fails: the model rejects the first turn of A,
    extraction is attempted again on A's second turn, succeeds there, and A
    ends with a fingerprint. *)
Lemma C4_counterexample :
  _extract_speaker_embedding picky_env 0%float 1%float = None /\
  extraction_calls (run_loop picky_env retry_tracks) = retry_tracks /\
  length (turns_of "A" (extraction_calls (run_loop picky_env retry_tracks))) = 2 /\
  exists r st,
    diarize_audio picky_env first_seen_order retry_tracks = Return r /\
    dict_lookup "A" (speaker_stats r) = Some st /\
    embedding st = [0.5%float].
Proof.
  repeat split. eexists _, _. repeat split.
Qed.

(** C4, amended.  An extraction is attempted on a turn exactly when no earlier
    turn of the same speaker had a successful extraction: a speaker's turns
    are tried in input order until the first success and never after it, so a
    failed attempt is made again on the speaker's next turn.  The embedding
    reported for a speaker is the one of that first success, and is empty
    only if the attempts on all of the speaker's turns failed. *)
Theorem C4_retry_until_first_success :
  forall (F : Type) (N : Number F) (env : Env (F:=F)) (order : SetOrder),
  (forall (pre : list Track) (t : Track),
     extraction_calls (run_loop env (pre ++ [t])) =
     extraction_calls (run_loop env pre)
     ++ (if is_some (first_embedding env (label t) pre) then [] else [t])) /\
  (forall (tracks : list Track) (s : string),
     In s (map label tracks) ->
     exists r st,
       diarize_audio env order tracks = Return r /\
       dict_lookup s (speaker_stats r) = Some st /\
       embedding st = match first_embedding env s tracks with
                      | Some e => e
                      | None => []
                      end).
Proof.
  intros F N env order. split.
  - apply extraction_calls_snoc.
  - intros tracks s Hin.
    destruct (speaker_record env order tracks s Hin) as [r [Hr Hs]].
    eexists r, _. repeat split; [exact Hr | exact Hs | reflexivity].
Qed.

Lemma C4_retry_until_first_success_witness :
  In "A"%string (map label retry_tracks) /\
  exists r st,
    diarize_audio picky_env first_seen_order retry_tracks = Return r /\
    dict_lookup "A" (speaker_stats r) = Some st /\
    embedding st = match first_embedding picky_env "A" retry_tracks with
                   | Some e => e
                   | None => []
                   end.
Proof.
  split; [simpl; tauto|].
  apply (proj2 (@C4_retry_until_first_success _ _ picky_env first_seen_order)).
  simpl; tauto.
Defined.

(** C5, the claim as stated fails: the only turn of A spans 0.05 s, below
    the 0.1 s window, yet extraction is attempted on its 50 samples and A
    ends with the fingerprint the model returns for them. *)
Lemma C5_counterexample :
  degenerate short_turn = true /\
  extraction_calls (run_loop short_env [short_turn]) = [short_turn] /\
  exists r st,
    diarize_audio short_env first_seen_order [short_turn] = Return r /\
    dict_lookup "A" (speaker_stats r) = Some st /\
    embedding st = [50%float] /\
    num_segments st = 1.
Proof.
  split; [reflexivity|]. split; [reflexivity|].
  eexists _, _. repeat split.
Qed.

(** C5, amended.  There is no minimum window.  [_extract_speaker_embedding]
    hands the model whatever samples the span selects, and any failure on
    the way is turned into an absent embedding.  For a speaker whose only
    turn is [t], of whatever length, extraction is attempted on [t], the
    record has one segment and [total_duration = 0 + (end - start)], and its
    embedding is the one extracted from [t], empty only if that extraction
    failed. *)
Theorem C5_no_minimum_window :
  forall (F : Type) (N : Number F) (env : Env (F:=F)) (order : SetOrder),
  (forall (wave : waveform) (sample_rate a b : Z) (start_time end_time : F),
     torchaudio_load env = Return (wave, sample_rate) ->
     to_int (fmul start_time (of_int sample_rate)) = Return a ->
     to_int (fmul end_time (of_int sample_rate)) = Return b ->
     _extract_speaker_embedding env start_time end_time =
     match embedding_model env
             (if Nat.ltb 1 (length (slice_columns wave a b))
              then torch_mean_dim0 (slice_columns wave a b)
              else slice_columns wave a b) with
     | Return e => Some e
     | Raise _ => None
     end) /\
  (forall (pre post : list Track) (t : Track),
     ~ In (label t) (map label pre) ->
     ~ In (label t) (map label post) ->
     exists r st,
       diarize_audio env order (pre ++ t :: post) = Return r /\
       In t (extraction_calls (run_loop env (pre ++ t :: post))) /\
       dict_lookup (label t) (speaker_stats r) = Some st /\
       num_segments st = 1 /\
       total_duration st = fadd fzero (span t) /\
       embedding st =
       match _extract_speaker_embedding env (turn_start t) (turn_end t) with
       | Some e => e
       | None => []
       end).
Proof.
  intros F N env order. split.
  - intros wave sample_rate a b start_time end_time Hload Ha Hb.
    unfold _extract_speaker_embedding, extract_body.
    rewrite Hload. simpl. rewrite Ha. simpl. rewrite Hb. reflexivity.
  - intros pre post t Hpre Hpost.
    destruct (speaker_record env order (pre ++ t :: post) (label t))
      as [r [Hr Hs]].
    { rewrite map_app, in_app_iff. right. now left. }
    assert (Hturns : turns_of (label t) (pre ++ t :: post) = [t]).
    { unfold turns_of. rewrite filter_app. simpl. rewrite String.eqb_refl.
      fold (turns_of (label t) pre) (turns_of (label t) post).
      now rewrite !turns_of_absent. }
    rewrite Hturns, first_embedding_only_turn in Hs by assumption.
    eexists r, _. repeat split; [exact Hr | | exact Hs | | |]; try reflexivity.
    change (pre ++ t :: post) with (pre ++ [t] ++ post).
    rewrite app_assoc.
    destruct (extraction_calls_app env (pre ++ [t]) post) as [more ->].
    rewrite extraction_calls_snoc, first_embedding_absent by assumption.
    simpl. rewrite !in_app_iff. left. right. now left.
Qed.

Lemma C5_no_minimum_window_witness :
  (~ In (label short_turn) (map label (@nil (Track (F:=float)))) /\
   ~ In (label short_turn) (map label (@nil (Track (F:=float))))) /\
  exists r st,
    diarize_audio short_env first_seen_order ([] ++ short_turn :: []) = Return r /\
    In short_turn (extraction_calls (run_loop short_env ([] ++ short_turn :: []))) /\
    dict_lookup (label short_turn) (speaker_stats r) = Some st /\
    num_segments st = 1 /\
    total_duration st = fadd fzero (span short_turn) /\
    embedding st =
    match _extract_speaker_embedding short_env (turn_start short_turn)
            (turn_end short_turn) with
    | Some e => e
    | None => []
    end.
Proof.
  split; [split; simpl; tauto|].
  apply (proj2 (@C5_no_minimum_window _ _ short_env first_seen_order));
    simpl; tauto.
Defined.

(** C9, the claim as stated fails: with a set iterating in another order
    than first-seen, the speakers of [("B",0,1),("A",1,2)] come out as
    A, B, and so do the keys of [speaker_stats]. *)
Lemma C9_counterexample :
  first_seen (map label two_speakers) = ["B"; "A"]%string /\
  exists r,
    diarize_audio short_env last_seen_order two_speakers = Return r /\
    speakers r = ["A"; "B"]%string /\
    keys (speaker_stats r) = ["A"; "B"]%string /\
    speakers r <> first_seen (map label two_speakers).
Proof.
  split; [reflexivity|]. eexists. split; [reflexivity|].
  repeat split; discriminate.
Qed.

(** C9, amended.  The segments of the result are the input turns in their
    original order.  The [speakers] list is the iteration order of the set
    of speaker ids: a rearrangement of the first-seen order, not that order
    in general; the keys of [speaker_stats] iterate in the order of the
    [speakers] list.  Under a set that iterates in first-seen order both are
    in first-seen order. *)
Theorem C9_orders :
  (forall (F : Type) (N : Number F) (env : Env (F:=F)) (order : SetOrder)
          (tracks : list Track),
     exists r,
       diarize_audio env order tracks = Return r /\
       segments r = map segment_of tracks /\
       speakers r = set_to_list order (map label tracks) /\
       Permutation (speakers r) (first_seen (map label tracks)) /\
       keys (speaker_stats r) = speakers r) /\
  (forall (F : Type) (N : Number F) (env : Env (F:=F)) (tracks : list Track),
     exists r,
       diarize_audio env first_seen_order tracks = Return r /\
       speakers r = first_seen (map label tracks) /\
       keys (speaker_stats r) = first_seen (map label tracks)).
Proof.
  split.
  - intros F N env order tracks.
    eexists. split; [apply diarize_audio_eq|]. simpl.
    rewrite keys_build_stats by apply set_to_list_NoDup.
    repeat split.
    apply NoDup_Permutation;
      [apply set_to_list_NoDup | apply first_seen_NoDup |].
    intros s. now rewrite set_to_list_In, first_seen_In.
  - intros F N env tracks.
    eexists. split; [apply diarize_audio_eq|]. simpl.
    rewrite keys_build_stats by apply first_seen_NoDup. now split.
Qed.

(** C10.  In every result, [num_speakers] is the length of [speakers], which
    is the number of keys of [speaker_stats] (no key twice); on the empty
    turn stream the three are zero. *)
Theorem C10_counts_agree :
  (forall (F : Type) (N : Number F) (env : Env (F:=F)) (order : SetOrder)
          (tracks : list Track),
     exists r,
       diarize_audio env order tracks = Return r /\
       num_speakers r = length (speakers r) /\
       length (speakers r) = length (speaker_stats r) /\
       NoDup (keys (speaker_stats r))) /\
  (forall (F : Type) (N : Number F) (env : Env (F:=F)) (order : SetOrder),
     exists r,
       diarize_audio env order [] = Return r /\
       num_speakers r = 0 /\ speakers r = [] /\ speaker_stats r = []).
Proof.
  split.
  - intros F N env order tracks.
    eexists. split; [apply diarize_audio_eq|]. simpl.
    assert (Hk := keys_build_stats (map segment_of tracks)
                    (st_speaker_embeddings (run_loop env tracks))
                    (set_to_list_NoDup order (map label tracks))).
    repeat split.
    + rewrite <- Hk at 1. unfold keys. now rewrite length_map.
    + rewrite Hk. apply set_to_list_NoDup.
  - intros F N env order.
    eexists. split; [apply diarize_audio_eq|]. simpl.
    destruct (set_to_list order []) as [|x l] eqn:Hl; [now repeat split|].
    exfalso. apply (set_to_list_In order [] x). rewrite Hl. now left.
Qed.

(** ** Claims on compare_speakers *)

(** C6.  On the arguments [[0,0]] and [[0,1]], of equal lengths and the
    first of norm zero, [compare_speakers] raises nothing: the division is
    not guarded and the call returns NaN, outside the range 0-1 its
    docstring states.  On arguments of different lengths it does fail, with
    the [ValueError] of [np.dot]. *)
Theorem C6_zero_norm_returns_nan :
  length [0; 0]%float = length [0; 1]%float /\
  np_linalg_norm [0; 0]%float = 0%float /\
  compare_speakers [0; 0]%float [0; 1]%float = Return nan /\
  compare_speakers [1; 2]%float [0; 1; 0]%float = Raise ValueError.
Proof. repeat split. Qed.

(** C7.  On the arguments [[1,1,1]] and [[-1,-1,-1]], of equal lengths and
    non-zero norms, [compare_speakers] returns [-2^-53]
    (-1.1102230246251565e-16), below the range 0-1 its docstring states:
    the rounded product of the norms is 2.9999999999999996, the quotient
    -1.0000000000000002, and nothing brings the score back into the range.
    On [[1,0,0]] and [[0,1,0]] it returns 0.5. *)
Theorem C7_score_below_zero :
  length [1; 1; 1]%float = length [-1; -1; -1]%float /\
  (0 <? np_linalg_norm [1; 1; 1])%float = true /\
  (0 <? np_linalg_norm [-1; -1; -1])%float = true /\
  compare_speakers [1; 1; 1]%float [-1; -1; -1]%float
  = Return (- 0x1p-53)%float /\
  (- 0x1p-53 <? 0)%float = true /\
  compare_speakers [1; 0; 0]%float [0; 1; 0]%float = Return 0.5%float.
Proof. repeat split. Qed.

(** C8.  In binary64 the two orders of the arguments compute the very same
    float, for all arguments; when that float is not a NaN, Python's [==]
    between the two results is true. *)
Theorem C8_exactly_symmetric :
  forall a b : list float,
    compare_speakers a b = compare_speakers b a /\
    (forall v, compare_speakers a b = Return v -> PrimFloat.is_nan v = false ->
       exists w, compare_speakers b a = Return w /\ (v =? w)%float = true).
Proof.
  intros a b. split.
  - apply (@compare_speakers_comm float float_Number float_mul_comm).
  - intros v Hv Hnan. exists v. split.
    + now rewrite <- (@compare_speakers_comm float float_Number float_mul_comm).
    + unfold PrimFloat.is_nan in Hnan. now apply negb_false_iff.
Qed.

Lemma C8_exactly_symmetric_witness :
  (compare_speakers [1; 0; 0]%float [0; 1; 0]%float = Return 0.5%float /\
   PrimFloat.is_nan 0.5%float = false) /\
  exists w,
    compare_speakers [0; 1; 0]%float [1; 0; 0]%float = Return w /\
    (0.5 =? w)%float = true.
Proof.
  split; [split; reflexivity|].
  apply (proj2 (C8_exactly_symmetric [1; 0; 0]%float [0; 1; 0]%float));
    reflexivity.
Defined.

(** ** Further facts on the statistics *)

Section StatsFacts.
Context {F : Type} `{Number F}.
Variable env : Env (F:=F).
Variable order : SetOrder.
Implicit Types (t : Track (F:=F)) (tracks pre post : list (Track (F:=F))).

Lemma dict_set_new {V} (k : string) (v : V) (d : dict V) :
  ~ In k (keys d) -> dict_set k v d = d ++ [(k, v)].
Proof.
  induction d as [|[k' v'] d IH]; simpl; intros Hnin; [reflexivity|].
  destruct (String.eqb_spec k k') as [->|Hne]; [tauto|].
  f_equal. apply IH. tauto.
Qed.

Lemma fold_dict_set_fresh {V} (f : string -> V) (l : list string) :
  forall d, NoDup l -> (forall k, In k l -> ~ In k (keys d)) ->
  fold_left (fun acc k => dict_set k (f k) acc) l d
  = d ++ map (fun k => (k, f k)) l.
Proof.
  induction l as [|k l IH]; intros d Hnd Hfresh; simpl.
  - now rewrite app_nil_r.
  - inversion Hnd as [|? ? Hk Hl]; subst.
    rewrite dict_set_new by (apply Hfresh; now left).
    rewrite IH; trivial.
    + now rewrite <- app_assoc.
    + intros k0 Hk0. unfold keys. rewrite map_app, in_app_iff. simpl.
      intros [Hin|[->|[]]]; [|tauto].
      revert Hin. apply Hfresh. now right.
Qed.

(** The second loop, in closed form. *)
Lemma build_stats_map segs emb l :
  NoDup l ->
  build_stats segs emb l = map (fun s => (s, stats_of segs emb s)) l.
Proof.
  intros Hnd. unfold build_stats.
  rewrite (fold_dict_set_fresh (stats_of segs emb)); auto.
Qed.

Lemma speaker_stats_closed_form tracks :
  exists r,
    diarize_audio env order tracks = Return r /\
    segments r = map segment_of tracks /\
    speakers r = set_to_list order (map label tracks) /\
    speaker_stats r =
    map (fun s =>
           (s, {| total_duration := py_sum (map span (turns_of s tracks));
                  num_segments := length (turns_of s tracks);
                  embedding := match first_embedding env s tracks with
                               | Some e => e
                               | None => []
                               end |}))
        (set_to_list order (map label tracks)).
Proof.
  eexists. split; [apply diarize_audio_eq|]. simpl.
  repeat split.
  rewrite build_stats_map by apply set_to_list_NoDup.
  apply map_ext. intros s. f_equal. unfold stats_of.
  rewrite filter_segment_of, dict_get_lookup, speaker_embeddings_run_loop.
  now rewrite length_map, map_map.
Qed.

Lemma indicator_sum (x : string) (l : list string) :
  NoDup l -> In x l ->
  list_sum (map (fun s => if String.eqb x s then 1 else 0) l) = 1.
Proof.
  induction l as [|y l IH]; intros Hnd Hin; [destruct Hin|].
  inversion Hnd as [|? ? Hy Hl]; subst. simpl.
  destruct (String.eqb_spec x y) as [->|Hne].
  - f_equal. clear IH Hnd Hin Hl.
    induction l as [|z l IH]; [reflexivity|]. simpl.
    destruct (String.eqb_spec y z) as [->|Hz]; [exfalso; apply Hy; now left|].
    apply IH. intros Hin. apply Hy. now right.
  - apply IH; trivial. destruct Hin; [congruence | assumption].
Qed.

Lemma list_sum_map_add {A} (f g : A -> nat) (l : list A) :
  list_sum (map (fun x => f x + g x) l)
  = list_sum (map f l) + list_sum (map g l).
Proof. induction l as [|x l IH]; simpl; [reflexivity | lia]. Qed.

Lemma turn_counts_add_up tracks (l : list string) :
  NoDup l -> (forall t, In t tracks -> In (label t) l) ->
  list_sum (map (fun s => length (turns_of s tracks)) l) = length tracks.
Proof.
  intros Hnd. induction tracks as [|t tracks IH]; intros Hall.
  - clear Hall. simpl.
    induction l as [|s l IHl]; [reflexivity|]. simpl.
    apply IHl. now inversion Hnd.
  - assert (Hstep : forall s, length (turns_of s (t :: tracks))
              = (if String.eqb (label t) s then 1 else 0)
                + length (turns_of s tracks)).
    { intros s. unfold turns_of. simpl.
      now destruct (String.eqb (label t) s). }
    rewrite (map_ext _ _ Hstep), list_sum_map_add.
    rewrite indicator_sum by (trivial; apply Hall; now left).
    rewrite IH by (intros u Hu; apply Hall; now right). reflexivity.
Qed.

End StatsFacts.

(** X1.  The segment counts of the records add up to the number of
    segments: every segment is counted for exactly one speaker. *)
Theorem X1_segment_counts_add_up :
  forall (F : Type) (N : Number F) (env : Env (F:=F)) (order : SetOrder)
         (tracks : list Track),
  exists r,
    diarize_audio env order tracks = Return r /\
    counted_segments (speaker_stats r) = length (segments r).
Proof.
  intros F N env order tracks.
  destruct (speaker_stats_closed_form env order tracks)
    as [r [Hr [Hseg [_ Hstats]]]].
  exists r. split; [exact Hr|].
  unfold counted_segments. rewrite Hstats, Hseg, map_map, length_map. simpl.
  apply turn_counts_add_up; [apply set_to_list_NoDup|].
  intros t Ht. apply set_to_list_In. now apply in_map.
Qed.

(** X2.  No record is empty and there are no more speakers than segments:
    every record counts at least one segment, and [num_speakers] is at most
    the number of segments. *)
Theorem X2_no_empty_record :
  forall (F : Type) (N : Number F) (env : Env (F:=F)) (order : SetOrder)
         (tracks : list Track),
  exists r,
    diarize_audio env order tracks = Return r /\
    Forall (fun kv => 1 <= num_segments (snd kv)) (speaker_stats r) /\
    num_speakers r <= length (segments r).
Proof.
  intros F N env order tracks.
  destruct (speaker_stats_closed_form env order tracks)
    as [r [Hr [Hseg [Hsp Hstats]]]].
  exists r. split; [exact Hr|]. split.
  - rewrite Hstats. apply Forall_forall. intros kv Hkv.
    apply in_map_iff in Hkv as [s [<- Hs]]. simpl.
    apply set_to_list_In in Hs. apply in_map_iff in Hs as [t [Hl Ht]].
    assert (Hin : In t (turns_of s tracks)).
    { apply filter_In. split; trivial. now apply String.eqb_eq. }
    destruct (turns_of s tracks); [destruct Hin | simpl; lia].
  - rewrite diarize_audio_eq in Hr. injection Hr as <-. simpl.
    rewrite length_map, <- (length_map label tracks).
    apply NoDup_incl_length; [apply set_to_list_NoDup|].
    intros s Hs. now apply set_to_list_In in Hs.
Qed.

(** ** Further facts on the extraction calls *)

Section CallFacts.
Context {F : Type} `{Number F}.
Variable env : Env (F:=F).
Implicit Types (t : Track (F:=F)) (tracks pre post l : list (Track (F:=F))).

Lemma turns_of_app s pre post :
  turns_of s (pre ++ post) = turns_of s pre ++ turns_of s post.
Proof. apply filter_app. Qed.

Lemma turns_of_idem s tracks : turns_of s (turns_of s tracks) = turns_of s tracks.
Proof.
  unfold turns_of. induction tracks as [|t tracks IH]; simpl; [reflexivity|].
  destruct (String.eqb (label t) s) eqn:Hl; simpl; [rewrite Hl|]; now rewrite ?IH.
Qed.

Lemma first_embedding_turns_of s tracks :
  first_embedding env s (turns_of s tracks) = first_embedding env s tracks.
Proof.
  unfold turns_of. induction tracks as [|t tracks IH]; simpl; [reflexivity|].
  destruct (String.eqb (label t) s) eqn:Hl; simpl; [rewrite Hl|]; now rewrite IH.
Qed.

Lemma is_some_first_embedding s tracks :
  is_some (first_embedding env s tracks)
  = existsb (succeeded env) (turns_of s tracks).
Proof.
  unfold turns_of, succeeded.
  induction tracks as [|t tracks IH]; simpl; [reflexivity|].
  destruct (String.eqb (label t) s); simpl; [|exact IH].
  now destruct (_extract_speaker_embedding env (turn_start t) (turn_end t)).
Qed.

Lemma until_success_snoc l t :
  until_success env (l ++ [t])
  = until_success env l ++ (if existsb (succeeded env) l then [] else [t]).
Proof.
  induction l as [|u l IH]; simpl.
  - now destruct (succeeded env t).
  - destruct (succeeded env u); simpl; [reflexivity | now rewrite IH].
Qed.

Lemma first_seen_snoc (l : list string) (x : string) :
  first_seen (l ++ [x])
  = first_seen l ++ (if existsb (String.eqb x) l then [] else [x]).
Proof.
  induction l as [|y l IH]; simpl; [reflexivity|].
  rewrite IH, filter_app. f_equal. f_equal.
  destruct (String.eqb_spec x y) as [->|Hne]; simpl.
  - destruct (existsb (String.eqb y) l); simpl; [reflexivity|].
    now rewrite String.eqb_refl.
  - destruct (existsb (String.eqb x) l); simpl; [reflexivity|].
    destruct (String.eqb_spec y x); [congruence | reflexivity].
Qed.

Lemma existsb_label s tracks :
  (forall t, In t tracks -> succeeded env t = true) ->
  existsb (succeeded env) (turns_of s tracks)
  = existsb (String.eqb s) (map label tracks).
Proof.
  unfold turns_of. induction tracks as [|t tracks IH]; intros Hall; simpl;
    [reflexivity|].
  rewrite (String.eqb_sym s (label t)).
  destruct (String.eqb (label t) s); simpl.
  - now rewrite Hall by now left.
  - apply IH. intros u Hu. apply Hall. now right.
Qed.

Lemma calls_when_all_succeed tracks :
  (forall t, In t tracks -> succeeded env t = true) ->
  map label (extraction_calls (run_loop env tracks))
  = first_seen (map label tracks).
Proof.
  induction tracks as [|t pre IH] using rev_ind; intros Hall; [reflexivity|].
  assert (Hpre : forall u, In u pre -> succeeded env u = true).
  { intros u Hu. apply Hall. rewrite in_app_iff. now left. }
  rewrite extraction_calls_snoc, !map_app, IH by assumption. simpl.
  rewrite first_seen_snoc, is_some_first_embedding, existsb_label by assumption.
  now destruct (existsb (String.eqb (label t)) (map label pre)).
Qed.

Lemma calls_when_all_fail tracks :
  (forall t, In t tracks -> succeeded env t = false) ->
  extraction_calls (run_loop env tracks) = tracks.
Proof.
  induction tracks as [|t pre IH] using rev_ind; intros Hall; [reflexivity|].
  assert (Hpre : forall u, In u pre -> succeeded env u = false).
  { intros u Hu. apply Hall. rewrite in_app_iff. now left. }
  rewrite extraction_calls_snoc, IH, is_some_first_embedding by assumption.
  replace (existsb (succeeded env) (turns_of (label t) pre)) with false;
    [reflexivity|].
  symmetry. apply not_true_is_false. intros Hex.
  apply existsb_exists in Hex as [u [Hu Hs]].
  apply filter_In in Hu as [Hu _]. rewrite Hpre in Hs by assumption.
  discriminate.
Qed.

Lemma first_embedding_when_all_fail s tracks :
  (forall t, In t tracks -> succeeded env t = false) ->
  first_embedding env s tracks = None.
Proof.
  intros Hall.
  destruct (first_embedding env s tracks) eqn:Hfe; [|reflexivity].
  assert (Hs : is_some (first_embedding env s tracks) = true)
    by now rewrite Hfe.
  rewrite is_some_first_embedding in Hs.
  apply existsb_exists in Hs as [u [Hu Hs]].
  apply filter_In in Hu as [Hu _]. rewrite Hall in Hs by assumption.
  discriminate.
Qed.

End CallFacts.

(** X3.  The record of a speaker depends on that speaker's turns only: the
    turns of the other speakers, and where they fall, change nothing of it. *)
Theorem X3_record_of_own_turns_only :
  forall (F : Type) (N : Number F) (env : Env (F:=F)) (order order' : SetOrder)
         (tracks : list Track) (s : string),
  In s (map label tracks) ->
  exists r r' st,
    diarize_audio env order tracks = Return r /\
    diarize_audio env order' (turns_of s tracks) = Return r' /\
    dict_lookup s (speaker_stats r) = Some st /\
    dict_lookup s (speaker_stats r') = Some st.
Proof.
  intros F N env order order' tracks s Hin.
  destruct (speaker_record env order tracks s Hin) as [r [Hr Hs]].
  assert (Hin' : In s (map label (turns_of s tracks))).
  { apply in_map_iff in Hin as [t [Hl Ht]]. apply in_map_iff. exists t.
    split; trivial. apply filter_In. split; trivial. now apply String.eqb_eq. }
  destruct (speaker_record env order' (turns_of s tracks) s Hin')
    as [r' [Hr' Hs']].
  rewrite turns_of_idem, first_embedding_turns_of in Hs'.
  eexists r, r', _. repeat split; eassumption.
Qed.

Lemma X3_record_of_own_turns_only_witness :
  In "A"%string (map label scenario_tracks) /\
  exists r r' st,
    diarize_audio short_env first_seen_order scenario_tracks = Return r /\
    diarize_audio short_env last_seen_order (turns_of "A" scenario_tracks)
    = Return r' /\
    dict_lookup "A" (speaker_stats r) = Some st /\
    dict_lookup "A" (speaker_stats r') = Some st.
Proof.
  split; [simpl; tauto|].
  apply X3_record_of_own_turns_only. simpl; tauto.
Defined.

(** X4.  For every speaker, the turns on which extraction is called are that
    speaker's turns, in input order, up to and including the first one on
    which it succeeds (all of them if it never succeeds). *)
Theorem X4_calls_stop_at_first_success :
  forall (F : Type) (N : Number F) (env : Env (F:=F))
         (tracks : list Track) (s : string),
  turns_of s (extraction_calls (run_loop env tracks))
  = until_success env (turns_of s tracks).
Proof.
  intros F N env tracks s.
  induction tracks as [|t pre IH] using rev_ind; [reflexivity|].
  rewrite extraction_calls_snoc, !turns_of_app, IH.
  destruct (String.eqb_spec (label t) s) as [Heq|Hne].
  - subst s. rewrite is_some_first_embedding.
    assert (Hone : turns_of (label t) [t] = [t])
      by (unfold turns_of; simpl; now rewrite String.eqb_refl).
    rewrite Hone, until_success_snoc.
    destruct (existsb (succeeded env) (turns_of (label t) pre));
      [reflexivity | now rewrite Hone].
  - assert (Hnil : turns_of s [t] = []).
    { unfold turns_of. simpl.
      now destruct (String.eqb_spec (label t) s); [congruence|]. }
    rewrite Hnil, app_nil_r.
    destruct (is_some (first_embedding env (label t) pre));
      [|rewrite Hnil]; now rewrite app_nil_r.
Qed.

(** X5.  When extraction succeeds on every turn, it is called once per
    speaker, on the speaker's first turn: the labels of the calls are the
    speakers in first-seen order, and there are [num_speakers] calls. *)
Theorem X5_one_call_per_speaker :
  forall (F : Type) (N : Number F) (env : Env (F:=F)) (order : SetOrder)
         (tracks : list Track),
  (forall t, In t tracks -> succeeded env t = true) ->
  exists r,
    diarize_audio env order tracks = Return r /\
    map label (extraction_calls (run_loop env tracks))
    = first_seen (map label tracks) /\
    length (extraction_calls (run_loop env tracks)) = num_speakers r.
Proof.
  intros F N env order tracks Hall.
  eexists. split; [apply diarize_audio_eq|]. simpl.
  assert (Hc := calls_when_all_succeed env tracks Hall).
  split; [exact Hc|].
  rewrite <- (length_map label), Hc.
  apply Permutation_length, NoDup_Permutation;
    [apply first_seen_NoDup | apply set_to_list_NoDup |].
  intros s. now rewrite set_to_list_In, first_seen_In.
Qed.

Lemma X5_one_call_per_speaker_witness :
  (forall t, In t scenario_tracks -> succeeded short_env t = true) /\
  exists r,
    diarize_audio short_env last_seen_order scenario_tracks = Return r /\
    map label (extraction_calls (run_loop short_env scenario_tracks))
    = first_seen (map label scenario_tracks) /\
    length (extraction_calls (run_loop short_env scenario_tracks))
    = num_speakers r.
Proof.
  assert (Hall : forall t, In t scenario_tracks ->
                           succeeded short_env t = true).
  { intros t [<-|[<-|[<-|[]]]]; reflexivity. }
  split; [exact Hall|].
  apply X5_one_call_per_speaker. exact Hall.
Defined.

(** X6.  A recording that cannot be loaded is not fatal: extraction is
    called on every turn and fails each time, the call returns, every
    record has an empty embedding, and the counts are unaffected. *)
Theorem X6_unreadable_audio_not_fatal :
  forall (F : Type) (N : Number F) (env : Env (F:=F)) (order : SetOrder)
         (tracks : list Track) (e : exn),
  torchaudio_load env = Raise e ->
  exists r,
    diarize_audio env order tracks = Return r /\
    extraction_calls (run_loop env tracks) = tracks /\
    Forall (fun kv => embedding (snd kv) = []) (speaker_stats r) /\
    counted_segments (speaker_stats r) = length tracks.
Proof.
  intros F N env order tracks e Hload.
  assert (Hfail : forall t, In t tracks -> succeeded env t = false).
  { intros t _. unfold succeeded, _extract_speaker_embedding, extract_body.
    now rewrite Hload. }
  destruct (speaker_stats_closed_form env order tracks)
    as [r [Hr [Hseg [_ Hstats]]]].
  exists r. split; [exact Hr|]. split; [now apply calls_when_all_fail|]. split.
  - rewrite Hstats. apply Forall_forall. intros kv Hkv.
    apply in_map_iff in Hkv as [s [<- _]]. simpl.
    now rewrite first_embedding_when_all_fail.
  - unfold counted_segments. rewrite Hstats, map_map. simpl.
    apply turn_counts_add_up; [apply set_to_list_NoDup|].
    intros t Ht. apply set_to_list_In. now apply in_map.
Qed.

Lemma X6_unreadable_audio_not_fatal_witness :
  torchaudio_load unreadable_env = Raise RuntimeError /\
  exists r,
    diarize_audio unreadable_env first_seen_order scenario_tracks = Return r /\
    extraction_calls (run_loop unreadable_env scenario_tracks)
    = scenario_tracks /\
    Forall (fun kv => embedding (snd kv) = []) (speaker_stats r) /\
    counted_segments (speaker_stats r) = length scenario_tracks.
Proof.
  split; [reflexivity|].
  apply (@X6_unreadable_audio_not_fatal _ _ unreadable_env first_seen_order
           scenario_tracks RuntimeError).
  reflexivity.
Defined.

(** ** Times that are not finite *)

Lemma SFeqb_refl_finite (s : bool) (m : positive) (e : Z) :
  SFeqb (S754_finite s m e) (S754_finite s m e) = true.
Proof.
  unfold SFeqb, SFcompare.
  destruct s; rewrite Z.compare_refl, Pos.compare_cont_refl; reflexivity.
Qed.

Lemma is_finite_false (x : float) :
  PrimFloat.is_finite x = false -> nonfinite_sf (Prim2SF x) = true.
Proof.
  unfold PrimFloat.is_finite, PrimFloat.is_nan, PrimFloat.is_infinity.
  rewrite !eqb_spec, abs_spec.
  replace (Prim2SF infinity) with (S754_infinity false) by reflexivity.
  destruct (Prim2SF x) as [s|s| |s m e]; try reflexivity.
  - discriminate.
  - simpl SFabs. rewrite SFeqb_refl_finite. discriminate.
Qed.

Lemma nonfinite_mul (x y : float) :
  nonfinite_sf (Prim2SF x) = true -> nonfinite_sf (Prim2SF (x * y)) = true.
Proof.
  rewrite mul_spec.
  destruct (Prim2SF x) as [sx|sx| |sx mx ex]; try discriminate;
    destruct (Prim2SF y) as [sy|sy| |sy my ey]; reflexivity.
Qed.

Lemma nonfinite_to_int (x : float) :
  nonfinite_sf (Prim2SF x) = true -> exists e, float_to_int x = Raise e.
Proof.
  unfold float_to_int.
  destruct (Prim2SF x) as [s|s| |s m e]; try discriminate; eauto.
Qed.

(** X8.  A start or end time that is an infinity or a NaN makes the
    extraction fail without raising: the result is absent whatever the
    recording and the embedding model are. *)
Theorem X8_nonfinite_time_gives_none :
  forall (env : Env (F:=float)) (x t : float),
  PrimFloat.is_finite x = false ->
  _extract_speaker_embedding env x t = None /\
  _extract_speaker_embedding env t x = None.
Proof.
  intros env x t Hx. apply is_finite_false in Hx.
  assert (Hraise : forall sr, exists e,
            to_int (fmul x (of_int sr)) = Raise e).
  { intros sr. apply nonfinite_to_int. simpl. now apply nonfinite_mul. }
  unfold _extract_speaker_embedding, extract_body.
  destruct (torchaudio_load env) as [[wave sr]|e0]; [|now split].
  destruct (Hraise sr) as [e He]. unfold bind. split.
  - now rewrite He.
  - destruct (to_int (fmul t (of_int sr))); [|reflexivity].
    now rewrite He.
Qed.

Lemma X8_nonfinite_time_gives_none_witness :
  PrimFloat.is_finite infinity = false /\
  _extract_speaker_embedding short_env infinity 1%float = None /\
  _extract_speaker_embedding short_env 1%float infinity = None.
Proof.
  split; [reflexivity|].
  apply X8_nonfinite_time_gives_none. reflexivity.
Defined.

(** ** The window of samples *)

Section WindowFacts.
Context {F : Type} `{Number F}.

Lemma slice_index_bounds (n i : Z) :
  (0 <= n -> 0 <= slice_index n i <= n)%Z.
Proof. unfold slice_index. destruct (i <? 0)%Z eqn:Hi; lia. Qed.

Lemma length_py_slice {A} (xs : list A) (a b : Z) :
  length (py_slice xs a b)
  = Z.to_nat (slice_index (Z.of_nat (length xs)) b
              - slice_index (Z.of_nat (length xs)) a).
Proof.
  unfold py_slice. rewrite length_firstn, length_skipn.
  assert (Ha := @slice_index_bounds (Z.of_nat (length xs)) a (Zle_0_nat _)).
  assert (Hb := @slice_index_bounds (Z.of_nat (length xs)) b (Zle_0_nat _)).
  lia.
Qed.

Lemma py_slice_in_range {A} (xs : list A) (a b : Z) :
  (0 <= a <= b)%Z -> (b <= Z.of_nat (length xs))%Z ->
  py_slice xs a b = firstn (Z.to_nat (b - a)) (skipn (Z.to_nat a) xs).
Proof.
  intros Hab Hb. unfold py_slice, slice_index.
  destruct (a <? 0)%Z eqn:Ha; [lia|]. destruct (b <? 0)%Z eqn:Hb'; [lia|].
  now rewrite !Z.min_l by lia.
Qed.

Lemma length_add_rows (xs ys : list F) :
  length (add_rows xs ys) = Nat.min (length xs) (length ys).
Proof.
  revert ys. induction xs as [|x xs IH]; intros [|y ys]; simpl; trivial.
  now rewrite IH.
Qed.

Lemma length_sum_rows (m : nat) (rows : list (list F)) :
  Forall (fun ch => length ch = m) rows ->
  forall row, length row = m -> length (fold_left add_rows rows row) = m.
Proof.
  induction 1 as [|ch rows Hch _ IH]; intros row Hrow; simpl; [exact Hrow|].
  apply IH. rewrite length_add_rows. lia.
Qed.

End WindowFacts.

(** X9.  When the window lies within the recording
    ([0 <= start_sample <= end_sample <= n]), every channel of the segment
    holds exactly the samples from [start_sample] up to [end_sample], that
    is [end_sample - start_sample] of them. *)
Theorem X9_window_within_recording :
  forall (F : Type) (N : Number F) (wave : waveform (F:=F)) (n : nat)
         (a b : Z),
  Forall (fun ch => length ch = n) wave ->
  (0 <= a <= b)%Z -> (b <= Z.of_nat n)%Z ->
  slice_columns wave a b
  = map (fun ch => firstn (Z.to_nat (b - a)) (skipn (Z.to_nat a) ch)) wave /\
  Forall (fun ch => length ch = Z.to_nat (b - a)) (slice_columns wave a b).
Proof.
  intros F N wave n a b Hrect Hab Hb. split.
  - unfold slice_columns. apply map_ext_in. intros ch Hch.
    rewrite Forall_forall in Hrect. apply py_slice_in_range; trivial.
    now rewrite (Hrect ch Hch).
  - unfold slice_columns. apply Forall_forall. intros ch Hch.
    apply in_map_iff in Hch as [ch0 [<- Hch0]].
    rewrite Forall_forall in Hrect. rewrite length_py_slice, (Hrect ch0 Hch0).
    unfold slice_index.
    destruct (a <? 0)%Z eqn:Ha; [lia|]. destruct (b <? 0)%Z eqn:Hb'; [lia|].
    lia.
Qed.

Lemma X9_window_within_recording_witness :
  (Forall (fun ch => length ch = 4) [[1; 2; 3; 4]; [5; 6; 7; 8]]%float /\
   (0 <= 1 <= 3)%Z /\ (3 <= Z.of_nat 4)%Z) /\
  slice_columns [[1; 2; 3; 4]; [5; 6; 7; 8]]%float 1 3
  = map (fun ch => firstn (Z.to_nat (3 - 1)) (skipn (Z.to_nat 1) ch))
        [[1; 2; 3; 4]; [5; 6; 7; 8]]%float /\
  Forall (fun ch => length ch = Z.to_nat (3 - 1))
         (slice_columns [[1; 2; 3; 4]; [5; 6; 7; 8]]%float 1 3).
Proof.
  assert (Hrect : Forall (fun ch => length ch = 4)
                    [[1; 2; 3; 4]; [5; 6; 7; 8]]%float)
    by (repeat constructor).
  split; [split; [exact Hrect | lia]|].
  apply (@X9_window_within_recording float float_Number _ 4%nat 1%Z 3%Z Hrect);
    simpl; lia.
Defined.

(** X10.  A window that starts at or after the end of the recording, or
    that ends at or before the sample it starts on, is no error: it selects
    no sample of any channel. *)
Theorem X10_empty_window :
  forall (F : Type) (N : Number F) (wave : waveform (F:=F)) (n : nat)
         (a b : Z),
  Forall (fun ch => length ch = n) wave ->
  (Z.of_nat n <= a \/ 0 <= b <= a)%Z ->
  Forall (fun ch => ch = []) (slice_columns wave a b).
Proof.
  intros F N wave n a b Hrect Hwin.
  unfold slice_columns. apply Forall_forall. intros ch Hch.
  apply in_map_iff in Hch as [ch0 [<- Hch0]].
  rewrite Forall_forall in Hrect. apply length_zero_iff_nil.
  rewrite length_py_slice, (Hrect ch0 Hch0). unfold slice_index.
  destruct (a <? 0)%Z eqn:Ha; destruct (b <? 0)%Z eqn:Hb; lia.
Qed.

Lemma X10_empty_window_witness :
  (Forall (fun ch => length ch = 4) [[1; 2; 3; 4]]%float /\
   (Z.of_nat 4 <= 10 \/ 0 <= 4 <= 10)%Z) /\
  Forall (fun ch => ch = []) (slice_columns [[1; 2; 3; 4]]%float 10 4).
Proof.
  assert (Hrect : Forall (fun ch => length ch = 4) [[1; 2; 3; 4]]%float)
    by (repeat constructor).
  split; [split; [exact Hrect | lia]|].
  apply (@X10_empty_window float float_Number _ 4%nat 10%Z 4%Z Hrect). lia.
Defined.

Section MeanFacts.
Context {F : Type} `{Number F}.

Lemma nth_add_rows (xs ys : list F) (j : nat) (d : F) :
  j < length xs -> j < length ys ->
  nth j (add_rows xs ys) d = fadd (nth j xs d) (nth j ys d).
Proof.
  revert ys j. induction xs as [|x xs IH]; intros [|y ys] [|j] Hx Hy;
    simpl in *; try lia; trivial.
  apply IH; lia.
Qed.

Lemma nth_sum_rows (m j : nat) (d : F) (rows : list (list F)) :
  j < m -> Forall (fun ch => length ch = m) rows ->
  forall row, length row = m ->
  nth j (fold_left add_rows rows row) d
  = fold_left fadd (map (fun r => nth j r d) rows) (nth j row d).
Proof.
  intros Hj. induction 1 as [|ch rows Hch _ IH]; intros row Hrow; simpl;
    [reflexivity|].
  rewrite IH by (rewrite length_add_rows; lia).
  now rewrite nth_add_rows by lia.
Qed.

Lemma slice_columns_rect (wave : waveform (F:=F)) (n : nat) (a b : Z) :
  Forall (fun ch => length ch = n) wave ->
  Forall (fun ch => length ch
                    = Z.to_nat (slice_index (Z.of_nat n) b
                                - slice_index (Z.of_nat n) a))
         (slice_columns wave a b).
Proof.
  intros Hrect. unfold slice_columns. apply Forall_forall. intros ch Hch.
  apply in_map_iff in Hch as [ch0 [<- Hch0]].
  rewrite Forall_forall in Hrect.
  now rewrite length_py_slice, (Hrect ch0 Hch0).
Qed.

End MeanFacts.

(** X11.  When the recording loads and both sample indices convert, the
    embedding model is called on a single channel of as many samples as
    the (clamped) window selects.  For a mono recording that channel is the
    window of the recording's channel; for a recording of several channels
    each of its samples is the sum of the channels' samples at that place,
    added in channel order, divided by the number of channels.  The
    extraction returns what the call on that channel returns, and nothing
    if it raises. *)
Theorem X11_model_input_is_mono :
  forall (F : Type) (N : Number F) (env : Env (F:=F))
         (c0 : list F) (others : list (list F))
         (sample_rate : Z) (n : nat) (a b : Z) (start_time end_time d : F),
  torchaudio_load env = Return (c0 :: others, sample_rate) ->
  to_int (fmul start_time (of_int sample_rate)) = Return a ->
  to_int (fmul end_time (of_int sample_rate)) = Return b ->
  Forall (fun ch => length ch = n) (c0 :: others) ->
  exists ch,
    length ch = Z.to_nat (slice_index (Z.of_nat n) b
                          - slice_index (Z.of_nat n) a) /\
    (others = [] -> ch = py_slice c0 a b) /\
    (others <> [] ->
     forall j, j < length ch ->
       nth j ch d
       = fdiv (fold_left fadd
                 (map (fun c => nth j (py_slice c a b) d) others)
                 (nth j (py_slice c0 a b) d))
              (of_int (Z.of_nat (length (c0 :: others))))) /\
    _extract_speaker_embedding env start_time end_time =
    match embedding_model env [ch] with
    | Return e => Some e
    | Raise _ => None
    end.
Proof.
  intros F N env c0 others sample_rate n a b start_time end_time d
         Hload Ha Hb Hrect.
  set (m := Z.to_nat (slice_index (Z.of_nat n) b - slice_index (Z.of_nat n) a)).
  assert (Hcols := slice_columns_rect a b Hrect). fold m in Hcols.
  assert (Hex :
            _extract_speaker_embedding env start_time end_time =
            match embedding_model env
                    (if Nat.ltb 1 (length (slice_columns (c0 :: others) a b))
                     then torch_mean_dim0 (slice_columns (c0 :: others) a b)
                     else slice_columns (c0 :: others) a b) with
            | Return e => Some e
            | Raise _ => None
            end).
  { unfold _extract_speaker_embedding, extract_body.
    rewrite Hload. simpl. rewrite Ha. simpl. rewrite Hb. reflexivity. }
  rewrite Hex. clear Hex.
  simpl slice_columns in *.
  inversion Hcols as [|? ? Hc0 Hothers]; subst.
  destruct others as [|c1 rest].
  - exists (py_slice c0 a b). simpl.
    repeat split; [exact Hc0 | congruence].
  - set (rows := map (fun channel => py_slice channel a b) (c1 :: rest)) in *.
    set (mean := fun x : F =>
                   fdiv x (of_int (Z.of_nat (length (c0 :: c1 :: rest))))).
    exists (map mean (fold_left add_rows rows (py_slice c0 a b))).
    assert (Hlen : length (fold_left add_rows rows (py_slice c0 a b)) = m)
      by (apply (length_sum_rows Hothers); exact Hc0).
    split; [now rewrite length_map|]. split; [discriminate|]. split.
    + intros _ j Hj. rewrite length_map, Hlen in Hj.
      rewrite (nth_indep _ d (mean d)) by (rewrite length_map; lia).
      rewrite map_nth.
      rewrite (nth_sum_rows d Hj Hothers) by exact Hc0.
      unfold rows, mean, slice_columns. simpl. now rewrite map_map.
    + unfold rows, mean, slice_columns. simpl. rewrite ?length_map.
      reflexivity.
Qed.

Lemma X11_model_input_is_mono_witness :
  (torchaudio_load stereo_env
   = Return ([1; 2; 3; 4]%float :: [[5; 6; 7; 8]%float], 1%Z) /\
   to_int (fmul 1%float (of_int 1)) = Return 1%Z /\
   to_int (fmul 3%float (of_int 1)) = Return 3%Z /\
   Forall (fun ch => length ch = 4)
          ([1; 2; 3; 4]%float :: [[5; 6; 7; 8]%float])) /\
  exists ch,
    length ch = Z.to_nat (slice_index (Z.of_nat 4) 3
                          - slice_index (Z.of_nat 4) 1) /\
    ([[5; 6; 7; 8]%float] = [] -> ch = py_slice [1; 2; 3; 4]%float 1 3) /\
    ([[5; 6; 7; 8]%float] <> [] ->
     forall j, j < length ch ->
       nth j ch 0%float
       = fdiv (fold_left fadd
                 (map (fun c => nth j (py_slice c 1 3) 0%float)
                      [[5; 6; 7; 8]%float])
                 (nth j (py_slice [1; 2; 3; 4]%float 1 3) 0%float))
              (of_int (Z.of_nat
                 (length ([1; 2; 3; 4]%float :: [[5; 6; 7; 8]%float]))))) /\
    _extract_speaker_embedding stereo_env 1%float 3%float =
    match embedding_model stereo_env [ch] with
    | Return e => Some e
    | Raise _ => None
    end.
Proof.
  assert (Hrect : Forall (fun ch => length ch = 4)
                    ([1; 2; 3; 4]%float :: [[5; 6; 7; 8]%float]))
    by (repeat constructor).
  split; [repeat split; exact Hrect|].
  apply (@X11_model_input_is_mono float float_Number stereo_env
           [1; 2; 3; 4]%float [[5; 6; 7; 8]%float] 1%Z 4%nat 1%Z 3%Z
           1%float 3%float 0%float);
    [reflexivity | reflexivity | reflexivity | exact Hrect].
Defined.

(** ** More of binary64 *)

Lemma float_mul_opp_opp (x y : float) : (- x * - y = x * y)%float.
Proof.
  rewrite <- (SF2Prim_Prim2SF (- x * - y)), <- (SF2Prim_Prim2SF (x * y)).
  rewrite !mul_spec, !opp_spec. f_equal.
  destruct (Prim2SF x) as [sx|sx| |sx mx ex], (Prim2SF y) as [sy|sy| |sy my ey];
    simpl; try reflexivity; now rewrite <- negb_xorb_l, <- negb_xorb_r,
                                 negb_involutive.
Qed.

Lemma nan_mul (y : float) : (nan * y = nan)%float.
Proof.
  apply float_is_nan. rewrite mul_spec.
  replace (Prim2SF nan) with S754_nan by reflexivity. reflexivity.
Qed.

Lemma add_nan (x : float) : (x + nan = nan)%float.
Proof.
  apply float_is_nan. rewrite add_spec.
  replace (Prim2SF nan) with S754_nan by reflexivity.
  now destruct (Prim2SF x).
Qed.

Lemma dot_from_nan (l : list (float * float)) :
  fold_left (fun acc xy => fadd acc (fmul (fst xy) (snd xy))) l nan = nan.
Proof.
  induction l as [|p l IH]; simpl; [reflexivity|].
  now rewrite nan_add.
Qed.

Lemma dot_with_nan (a b : list float) :
  length a = length b -> In nan a -> dot_aligned a b = nan.
Proof.
  unfold dot_aligned. generalize (fzero (F:=float)) as acc. revert b.
  induction a as [|x a IH]; intros [|y b] acc Hl Hin; simpl in *;
    try contradiction; try discriminate.
  destruct Hin as [->|Hin].
  - rewrite nan_mul, add_nan. apply dot_from_nan.
  - apply IH; [congruence | assumption].
Qed.

Lemma dot_aligned_opp (a b : list float) :
  dot_aligned (map PrimFloat.opp a) (map PrimFloat.opp b) = dot_aligned a b.
Proof.
  unfold dot_aligned. generalize (fzero (F:=float)) as acc. revert b.
  induction a as [|x a IH]; intros [|y b] acc; simpl; trivial.
  rewrite float_mul_opp_opp. apply IH.
Qed.

Lemma zero_div_positive (x d : float) :
  PrimFloat.is_zero x = true -> (0 <? d)%float = true ->
  exists s, Prim2SF (x / d) = S754_zero s.
Proof.
  unfold PrimFloat.is_zero. rewrite eqb_spec, ltb_spec, div_spec.
  replace (Prim2SF 0) with (S754_zero false) by reflexivity.
  destruct (Prim2SF x) as [sx|sx| |sx mx ex]; try discriminate;
    try (destruct sx; discriminate);
    destruct (Prim2SF d) as [sd|sd| |sd md ed]; try discriminate;
    intros _ _; eexists; reflexivity.
Qed.

Lemma zero_add_one (z : float) (s : bool) :
  Prim2SF z = S754_zero s -> (z + 1 = 1)%float.
Proof.
  intros Hz. rewrite <- (SF2Prim_Prim2SF (z + 1)), add_spec, Hz.
  reflexivity.
Qed.

(** X15.  In binary64, for fingerprints of equal lengths whose computed
    inner product is zero and whose product of norms compares greater than
    zero, the score is exactly 0.5. *)
Theorem X15_orthogonal_scores_half :
  forall a b : list float,
  length a = length b ->
  PrimFloat.is_zero (dot_aligned a b) = true ->
  (0 <? fmul (np_linalg_norm a) (np_linalg_norm b))%float = true ->
  compare_speakers a b = Return 0.5%float.
Proof.
  intros a b Hl Hdot Hden.
  rewrite compare_speakers_aligned by assumption. f_equal.
  destruct (@zero_div_positive _ _ Hdot Hden) as [s Hs].
  change (((dot_aligned a b / fmul (np_linalg_norm a) (np_linalg_norm b) + 1)
           / 2)%float = 0.5%float).
  rewrite (@zero_add_one _ _ Hs). reflexivity.
Qed.

Lemma X15_orthogonal_scores_half_witness :
  (length [3; 4]%float = length [-4; 3]%float /\
   PrimFloat.is_zero (dot_aligned [3; 4]%float [-4; 3]%float) = true /\
   (0 <? fmul (np_linalg_norm [3; 4]%float)
              (np_linalg_norm [-4; 3]%float))%float = true) /\
  compare_speakers [3; 4]%float [-4; 3]%float = Return 0.5%float.
Proof.
  split; [repeat split|].
  apply X15_orthogonal_scores_half; reflexivity.
Defined.

(** X16.  In binary64, a NaN entry in either argument is not an error:
    for arguments of equal lengths the call returns, and what it returns is
    NaN. *)
Theorem X16_nan_entry_gives_nan :
  forall a b : list float,
  length a = length b -> In nan a \/ In nan b ->
  compare_speakers a b = Return nan.
Proof.
  assert (Hleft : forall a b : list float,
            length a = length b -> In nan a ->
            compare_speakers a b = Return nan).
  { intros a b Hl Hin. rewrite compare_speakers_aligned by assumption.
    rewrite (dot_with_nan a b Hl Hin). simpl.
    now rewrite nan_div, nan_add, nan_div. }
  intros a b Hl [Hin|Hin]; [now apply Hleft|].
  rewrite (@compare_speakers_comm float float_Number float_mul_comm).
  now apply Hleft.
Qed.

Lemma X16_nan_entry_gives_nan_witness :
  (length [1; nan]%float = length [0; 1]%float /\
   (In nan [1; nan]%float \/ In nan [0; 1]%float)) /\
  compare_speakers [1; nan]%float [0; 1]%float = Return nan.
Proof.
  split; [split; [reflexivity | left; right; now left]|].
  apply X16_nan_entry_gives_nan; [reflexivity | left; right; now left].
Defined.

(** X17.  In binary64, negating every entry of both fingerprints gives
    the very same result: the score depends only on the relative direction
    of the two. *)
Theorem X17_joint_negation :
  forall a b : list float,
  compare_speakers (map PrimFloat.opp a) (map PrimFloat.opp b)
  = compare_speakers a b.
Proof.
  intros a b. unfold compare_speakers, np_dot, np_linalg_norm.
  now rewrite !length_map, !dot_aligned_opp.
Qed.

(** X18.  A negative start sample does not fail and is not clamped to the
    start of the recording: it counts from the end, so that the window
    selected is the one starting [n + start_sample] samples in. *)
Theorem X18_negative_start_counts_from_end :
  forall (F : Type) (N : Number F) (wave : waveform (F:=F)) (n : nat)
         (a b : Z),
  Forall (fun ch => length ch = n) wave ->
  (- Z.of_nat n <= a < 0)%Z ->
  slice_columns wave a b = slice_columns wave (Z.of_nat n + a) b.
Proof.
  intros F N wave n a b Hrect Ha.
  unfold slice_columns. apply map_ext_in. intros ch Hch.
  rewrite Forall_forall in Hrect.
  unfold py_slice, slice_index. rewrite (Hrect ch Hch).
  destruct (a <? 0)%Z eqn:Ha0; [|lia].
  destruct (Z.of_nat n + a <? 0)%Z eqn:Ha1; [lia|].
  now replace (Z.max (a + Z.of_nat n) 0) with (Z.min (Z.of_nat n + a) (Z.of_nat n))
    by lia.
Qed.

Lemma X18_negative_start_counts_from_end_witness :
  (Forall (fun ch => length ch = 4) [[1; 2; 3; 4]]%float /\
   (- Z.of_nat 4 <= -1 < 0)%Z) /\
  slice_columns [[1; 2; 3; 4]]%float (-1) 4
  = slice_columns [[1; 2; 3; 4]]%float (Z.of_nat 4 + -1) 4.
Proof.
  assert (Hrect : Forall (fun ch => length ch = 4) [[1; 2; 3; 4]]%float)
    by (repeat constructor).
  split; [split; [exact Hrect | lia]|].
  apply (@X18_negative_start_counts_from_end float float_Number _ 4%nat
           (-1)%Z 4%Z Hrect).
  lia.
Defined.

(** X19.  [compare_speakers] fails, with the [ValueError] of [np.dot],
    whenever its two arguments have different lengths, and never otherwise:
    on arguments of equal lengths it always returns a float, and when one
    argument has only zero entries that float is NaN. *)
Theorem X19_errors_of_compare_speakers :
  (forall (F : Type) (N : Number F) (a b : list F),
     length a <> length b -> compare_speakers a b = Raise ValueError) /\
  (forall (F : Type) (N : Number F) (a b : list F),
     length a = length b -> exists v, compare_speakers a b = Return v) /\
  (forall a b : list float,
     length a = length b -> all_zero a = true \/ all_zero b = true ->
     compare_speakers a b = Return nan).
Proof.
  split; [|split].
  - intros F N a b Hl. now apply compare_speakers_misaligned.
  - intros F N a b Hl. eexists. now apply compare_speakers_aligned.
  - intros a b Hl [Hz|Hz].
    + now apply compare_zero_vector.
    + rewrite (@compare_speakers_comm float float_Number float_mul_comm).
      now apply compare_zero_vector.
Qed.

Lemma X19_errors_of_compare_speakers_witness :
  (length [1; 2]%float <> length [0; 1; 0]%float /\
   compare_speakers [1; 2]%float [0; 1; 0]%float = Raise ValueError) /\
  (length [1; 0]%float = length [0; 1]%float /\
   exists v, compare_speakers [1; 0]%float [0; 1]%float = Return v) /\
  ((length [0; 1]%float = length [0; 0]%float /\
    (all_zero [0; 1]%float = true \/ all_zero [0; 0]%float = true)) /\
   compare_speakers [0; 1]%float [0; 0]%float = Return nan).
Proof.
  destruct X19_errors_of_compare_speakers as [Hmis [Hal Hzero]].
  split; [|split].
  - split; [simpl; lia | apply Hmis; simpl; lia].
  - split; [reflexivity | apply Hal; reflexivity].
  - split; [split; [reflexivity | right; reflexivity]|].
    apply Hzero; [reflexivity | right; reflexivity].
Defined.
